(** * The ninja backend of kati (ninja.go): model and verified properties

    The Go source is embedded shallowly.  Go strings are byte sequences and
    are modelled by [string] (a list of 8-bit [ascii] characters); Go's [int]
    results are modelled in [Z].  The output files are modelled as the list
    of lines written to them, together with a rendering of every line to the
    exact text of the corresponding [fmt.Fprintf] call. *)

From Stdlib Require Import ZArith Ascii Bool Lia.
From stdpp Require Import base gmap sets list strings pretty.

Local Open Scope Z_scope.
#[local] Arguments String.append !_ _ / : simpl nomatch.
#[local] Set Warnings "-clear-no-such-hyp".

(** ** Byte-string primitives (Go's builtin slicing and package [strings]) *)

Module Str.

Definition LF : ascii := "010"%char.
Definition TAB : ascii := "009"%char.
Definition CR : ascii := "013"%char.
Definition DQUOTE : ascii := "034"%char.
Definition BACKSL : ascii := "092"%char.

Definition of_byte (c : ascii) : string := String c EmptyString.

Fixpoint drop (n : nat) (s : string) : string :=
  match n, s with
  | O, _ => s
  | S n', String _ s' => drop n' s'
  | S _, EmptyString => EmptyString
  end.

Fixpoint take (n : nat) (s : string) : string :=
  match n, s with
  | S n', String c s' => String c (take n' s')
  | _, _ => EmptyString
  end.

(** [len(s)] *)
Definition len (s : string) : Z := Z.of_nat (String.length s).

(** [s[i:]] and [s[:i]]; every use in ninja.go is within bounds. *)
Definition slice_from (s : string) (i : Z) : string := drop (Z.to_nat i) s.
Definition slice_to (s : string) (i : Z) : string := take (Z.to_nat i) s.

Fixpoint mem (c : ascii) (chars : string) : bool :=
  match chars with
  | EmptyString => false
  | String d chars' => Ascii.eqb c d || mem c chars'
  end.

(** Position of the first byte of [s] satisfying [p], if any. *)
Fixpoint find_byte (p : ascii -> bool) (s : string) : option nat :=
  match s with
  | EmptyString => None
  | String c s' => if p c then Some O else S <$> find_byte p s'
  end.

(** Position of the first occurrence of [sub] in [s], if any. *)
Fixpoint find_sub (sub s : string) : option nat :=
  if String.prefix sub s then Some O
  else match s with
       | EmptyString => None
       | String _ s' => S <$> find_sub sub s'
       end.

(** Go reports "not found" as [-1]. *)
Definition pos (o : option nat) : Z :=
  match o with Some n => Z.of_nat n | None => -1 end.

Definition IndexByte (s : string) (c : ascii) : Z := pos (find_byte (Ascii.eqb c) s).
Definition IndexAny (s chars : string) : Z := pos (find_byte (fun c => mem c chars) s).
Definition Index (s sub : string) : Z := pos (find_sub sub s).
Definition Contains (s sub : string) : bool := 0 <=? Index s sub.

(** [strings.Replace(s, old, new, -1)] for a non-empty [old]: occurrences
    are replaced left to right without overlap; [skip] counts the bytes of
    a just-replaced occurrence that remain to be passed over. *)
Fixpoint replace_go (old new : string) (skip : nat) (s : string) : string :=
  match s with
  | EmptyString => EmptyString
  | String c s' =>
      match skip with
      | S k => replace_go old new k s'
      | O => if String.prefix old s
             then new +:+ replace_go old new (String.length old - 1) s'
             else String c (replace_go old new O s')
      end
  end.
Definition Replace (s old new : string) : string := replace_go old new O s.

(** [strings.TrimRight(s, cutset)] *)
Fixpoint TrimRight (s cutset : string) : string :=
  match s with
  | EmptyString => EmptyString
  | String c s' =>
      match TrimRight s' cutset with
      | EmptyString => if mem c cutset then EmptyString else of_byte c
      | t => String c t
      end
  end.

Definition has_sep (s : string) : bool :=
  match find_byte (Ascii.eqb "/"%char) s with Some _ => true | None => false end.

(** [filepath.Ext]: the suffix starting at the last dot of the last path
    element, empty when that element has no dot. *)
Fixpoint Ext (path : string) : string :=
  match path with
  | EmptyString => EmptyString
  | String c rest =>
      if has_sep rest then Ext rest
      else match Ext rest with
           | EmptyString => if Ascii.eqb c "."%char then path else EmptyString
           | e => e
           end
  end.

Fixpoint last_elem (path : string) : string :=
  match path with
  | EmptyString => EmptyString
  | String c rest =>
      if has_sep rest then last_elem rest
      else if Ascii.eqb c "/"%char then rest else path
  end.

(** [filepath.Base] on a Unix host. *)
Definition Base (path : string) : string :=
  match path with
  | EmptyString => "."
  | _ => match last_elem (TrimRight path "/") with
         | EmptyString => "/"
         | e => e
         end
  end.

End Str.

(** ** Helpers of the repository that live outside ninja.go *)

(** Modelled from the spec: [trimLeftSpace] (strutil.go is not part of the
    sources at hand) removes the leading whitespace of its argument; blank,
    tab, line feed and carriage return count as whitespace. *)
Definition isWhitespace (c : ascii) : bool :=
  Ascii.eqb c " "%char || Ascii.eqb c Str.TAB || Ascii.eqb c Str.LF || Ascii.eqb c Str.CR.

Fixpoint trimLeftSpace (s : string) : string :=
  match s with
  | EmptyString => EmptyString
  | String c s' => if isWhitespace c then trimLeftSpace s' else s
  end.

(** Modelled from the spec: [stripExt] (strutil.go is not part of the sources
    at hand) strips the extension of a path. *)
Definition stripExt (s : string) : string :=
  Str.take (String.length s - String.length (Str.Ext s)) s.

(** ** [stripShellComment] (ninja.go, lines 100-128)

    [for i, c := range s] walks the runes of [s]; the loop only compares [c]
    with ASCII characters, and no byte of a multi-byte UTF-8 sequence is
    ASCII, so walking the bytes visits the same significant positions with the
    same state.  [quote] is a rune whose zero value means "no quote". *)

Definition is_quote_char (c : ascii) : bool :=
  Ascii.eqb c "'"%char || Ascii.eqb c Str.DQUOTE || Ascii.eqb c "`"%char.

(** One iteration of the loop body: [None] is the early [return s[:i]],
    otherwise the new values of [escape] and [quote]. *)
Definition stripStep (escape : bool) (quote c : ascii) : option (bool * ascii) :=
  let quote' :=
    if negb (Ascii.eqb quote zero) then
      if Ascii.eqb quote c && (Ascii.eqb quote "'"%char || negb escape)
      then Some zero else Some quote
    else if negb escape then
      if Ascii.eqb c "#"%char then None
      else if is_quote_char c then Some c else Some quote
    else Some quote in
  match quote' with
  | None => None
  | Some q =>
      let escape' :=
        if escape then false
        else if Ascii.eqb c Str.BACKSL then true
        else false in
      Some (escape', q)
  end.

Fixpoint stripLoop (s : string) (escape : bool) (quote : ascii) (i : Z)
    (rest : string) : string :=
  match rest with
  | EmptyString => s
  | String c rest' =>
      match stripStep escape quote c with
      | None => Str.slice_to s i
      | Some (escape', quote') => stripLoop s escape' quote' (i + 1) rest'
      end
  end.

Definition stripShellComment (s : string) : string :=
  if Str.IndexByte s "#"%char <? 0 then s
  else stripLoop s false zero 0 s.

(** *** The specification's reading of comment stripping (spec section 4.1) *)

Inductive quoting := Unquoted | InSingle | InDouble | InBacktick.

Definition closing (q : quoting) : ascii :=
  match q with
  | InSingle => "'"%char
  | InDouble => Str.DQUOTE
  | InBacktick => "`"%char
  | Unquoted => zero
  end.

Definition opening (c : ascii) : quoting :=
  if Ascii.eqb c "'"%char then InSingle
  else if Ascii.eqb c Str.DQUOTE then InDouble
  else if Ascii.eqb c "`"%char then InBacktick
  else Unquoted.

(** The lexical state is the active quote and the escape-pending flag. *)
Definition lex_step (st : quoting * bool) (c : ascii) : quoting * bool :=
  match st with
  | (InSingle, _) =>
      if Ascii.eqb c "'"%char then (Unquoted, false) else (InSingle, false)
  | (Unquoted, esc) =>
      if esc then (Unquoted, false)
      else if Ascii.eqb c Str.BACKSL then (Unquoted, true)
      else (opening c, false)
  | (q, esc) =>
      if esc then (q, false)
      else if Ascii.eqb c Str.BACKSL then (q, true)
      else if Ascii.eqb c (closing q) then (Unquoted, false)
      else (q, false)
  end.

Fixpoint lex_from (st : quoting * bool) (s : string) : quoting * bool :=
  match s with
  | EmptyString => st
  | String c s' => lex_from (lex_step st c) s'
  end.

(** Position [i] of [s] starts a comment: it holds a [#], and the text before
    it leaves the scanner outside every quote with no escape pending. *)
Definition comment_start_from (st : quoting * bool) (s : string) (i : nat) : Prop :=
  String.get i s = Some "#"%char /\ lex_from st (Str.take i s) = (Unquoted, false).

Definition comment_start (s : string) (i : nat) : Prop :=
  comment_start_from (Unquoted, false) s i.

(** ** [getDepfileImpl] and [getDepfile] (ninja.go, lines 38-98)

    A Go [error] is modelled by its message; [None] is [nil]. *)

Definition blanks : string := String " " (String Str.TAB (String Str.LF EmptyString)).

Definition getDepfileImpl (ss : string) : string * option string :=
  let tss := ss +:+ " " in
  if negb (Str.Contains tss " -MD ") && negb (Str.Contains tss " -MMD ") then ("", None)
  else
    let mfIndex := Str.Index ss " -MF " in
    if 0 <=? mfIndex then
      let mf := trimLeftSpace (Str.slice_from ss (mfIndex + 4)) in
      if 0 <=? Str.Index mf " -MF "
      then ("", Some ("Multiple output file candidates in " +:+ ss))
      else
        let mfEndIndex := Str.IndexAny mf blanks in
        let mf := if 0 <=? mfEndIndex then Str.slice_to mf mfEndIndex else mf in
        (mf, None)
    else
      let outIndex := Str.Index ss " -o " in
      if outIndex <? 0 then ("", Some ("Cannot find the depfile in " +:+ ss))
      else
        let out := trimLeftSpace (Str.slice_from ss (outIndex + 4)) in
        if 0 <=? Str.Index out " -o "
        then ("", Some ("Multiple output file candidates in " +:+ ss))
        else
          let outEndIndex := Str.IndexAny out blanks in
          let out := if 0 <=? outEndIndex then Str.slice_to out outEndIndex else out in
          (stripExt out +:+ ".d", None).

Definition getDepfile (ss : string) : string * option string :=
  if Str.Contains ss "bin/llvm-rs-cc " then ("", None)
  else
    let '(r, err) := getDepfileImpl ss in
    if String.eqb r "" || bool_decide (err <> None) then (r, err)
    else
      let p := stripExt r +:+ ".P" in
      if Str.Contains ss p then (p, None)
      else
        let as_ := "/" +:+ stripExt (Str.Base r) +:+ ".s" in
        if Str.Contains ss as_ then ("", None)
        else (r, None).

(** ** The compiler pattern [ccRe] (ninja.go, line 25)

    [^prebuilts/(gcc|clang)/.*(gcc|g\+\+|clang|clang\+\+) .* -c ], matched
    unanchored at its end; [.] is any character but a line feed. *)

Definition strip_prefix (p s : string) : option string :=
  if String.prefix p s then Some (Str.drop (String.length p) s) else None.

(** [dot_star k s]: [s] is a run of characters other than line feed followed
    by a text accepted by [k]. *)
Fixpoint dot_star (k : string -> bool) (s : string) : bool :=
  k s || match s with
         | EmptyString => false
         | String c s' => negb (Ascii.eqb c Str.LF) && dot_star k s'
         end.

Definition ccRe_flag (s : string) : bool := dot_star (String.prefix " -c ") s.

Definition ccRe_compiler (s : string) : bool :=
  existsb (fun cc => match strip_prefix (cc +:+ " ") s with
                     | Some t => ccRe_flag t
                     | None => false
                     end)
          ["gcc"; "g++"; "clang"; "clang++"].

Definition ccRe_MatchString (s : string) : bool :=
  existsb (fun d => match strip_prefix ("prebuilts/" +:+ d +:+ "/") s with
                    | Some t => dot_star ccRe_compiler t
                    | None => false
                    end)
          ["gcc"; "clang"].

(** ** Data of the generator *)

(** A [runner] as far as ninja.go reads it. *)
Record runner := { cmd : string; ignoreError : bool }.

(** A [DepNode] as far as ninja.go reads it.  [Deps] holds pointers; a
    pointer is an index into the store of nodes, and an index outside the
    store is the nil pointer. *)
Record DepNode := {
  Output : string;
  Cmds : list string;
  Deps : list nat;
  IsOrderOnly : bool;
  IsPhony : bool
}.

(** The lines of build.ninja, one constructor per [Fprintf] of the source. *)
Inductive line :=
| LHeader
| LBlank
| LPoolDecl
| LDepth (depth : Z)
| LRule (ruleName : string)
| LDescription
| LDepfile (depfile : string)
| LRspfile
| LRspfileContent (ss : string)
| LCommand (ss : string)
| LBuild (output rule dep : string)
| LPool.

Definition NL : string := Str.of_byte Str.LF.

Definition render (l : line) : string :=
  match l with
  | LHeader => "# Generated by kati" +:+ NL
  | LBlank => NL
  | LPoolDecl => "pool local_pool" +:+ NL
  | LDepth d => " depth = " +:+ pretty d +:+ NL
  | LRule r => "rule " +:+ r +:+ NL
  | LDescription => " description = build $out" +:+ NL
  | LDepfile d => " depfile = " +:+ d +:+ NL
  | LRspfile => " rspfile = $out.rsp" +:+ NL
  | LRspfileContent ss => " rspfile_content = " +:+ ss +:+ NL
  | LCommand ss => " command = " +:+ ss +:+ NL
  | LBuild o r d => "build " +:+ o +:+ ": " +:+ r +:+ d +:+ NL
  | LPool => " pool = local_pool" +:+ NL
  end.

(** The writes to ninja.sh, one constructor for every [fmt.Fprintf] of
    [generateShell]; a write whose text holds a line feed is more than one
    line of the file, see [script_text] and [text_lines]. *)
Inductive shline :=
| ShBang (shell : string)
| ShExport (name value : string)
| ShUnset (name : string)
| ShExec (args : string).

Definition render_sh (l : shline) : string :=
  match l with
  | ShBang shell => "#!" +:+ shell +:+ NL
  | ShExport name value => "export " +:+ name +:+ "=" +:+ value +:+ NL
  | ShUnset name => "unset " +:+ name +:+ NL
  | ShExec args => "exec ninja" +:+ args +:+ NL
  end.

(** The mutable part of [NinjaGenerator]: the text written to [f] so far,
    the rule counter and the set of outputs already visited
    ([done map[string]bool], in which only [true] is ever stored). *)
Record NinjaGenerator := {
  f : list line;
  ruleId : Z;
  done : gset string
}.

Definition Fprintf (n : NinjaGenerator) (ls : list line) : NinjaGenerator :=
  {| f := f n ++ ls; ruleId := ruleId n; done := done n |}.

Definition mark (n : NinjaGenerator) (output : string) : NinjaGenerator :=
  {| f := f n; ruleId := ruleId n; done := {[ output ]} ∪ done n |}.

(** [int] is 64 bits wide; [n.ruleId++] wraps around. *)
Definition wrap_int (z : Z) : Z := (z + 2 ^ 63) mod 2 ^ 64 - 2 ^ 63.

(** How a call ends: it returns, it panics (the state is what had been
    written by then), or the model ran out of fuel. *)
Inductive outcome :=
| Done (n : NinjaGenerator)
| Panic (n : NinjaGenerator) (msg : string)
| OutOfFuel.

(** [for _, d := range ps { visit(d) }] *)
Fixpoint eachNode (visit : NinjaGenerator -> nat -> outcome) (n : NinjaGenerator)
    (ps : list nat) : outcome :=
  match ps with
  | [] => Done n
  | p :: ps' =>
      match visit n p with
      | Done n' => eachNode visit n' ps'
      | o => o
      end
  end.

Definition ArgLenLimit : Z := 100 * 1000.

Section Generator.

(** The acceleration toggle, a global of the repository. *)
Variable gomaDir : string.
(** [runtime.NumCPU()] *)
Variable NumCPU : Z.
(** The recipe commands the executor builds for a node
    ([n.ex.createRunners(node, true)]). *)
Variable createRunners : DepNode -> list runner.
(** The store of nodes the pointers of the graph refer to. *)
Variable heap : list DepNode.

(** *** [genShellScript] (lines 130-172) *)

Definition prevIgnoreError (runners : list runner) (i : nat) : bool :=
  match runners !! (i - 1)%nat with
  | Some p => ignoreError p
  | None => false
  end.

(** Lines 141-153: the command text that is written for a runner, and
    whether gomacc was put in front of it. *)
Definition commandText (r : runner) : string * bool :=
  let c := stripShellComment (cmd r) in
  let c := trimLeftSpace c in
  let c := Str.Replace c (String Str.BACKSL NL) " " in
  let c := Str.TrimRight c (String " " (String Str.TAB (String Str.LF ";"))) in
  let c := Str.Replace c "$" "$$" in
  let c := Str.Replace c (Str.of_byte Str.TAB) " " in
  let c := if String.eqb c "" then "true" else c in
  if negb (String.eqb gomaDir "") && ccRe_MatchString c
  then (gomaDir +:+ "/gomacc " +:+ c, true)
  else (c, false).

(** The loop body at index [i]. *)
Definition genShellScript_body (runners : list runner) (st : string * bool)
    (i : nat) (r : runner) : string * bool :=
  let '(buf, useGomacc) := st in
  let buf :=
    if (0 <? i)%nat then
      if prevIgnoreError runners i then buf +:+ " ; " else buf +:+ " && "
    else buf in
  let '(c, used) := commandText r in
  let useGomacc := used || useGomacc in
  let needsSubShell := (0 <? i)%nat || (1 <? length runners)%nat in
  let needsSubShell :=
    if bool_decide (String.get 0 c = Some "("%char) then false else needsSubShell in
  let buf := if needsSubShell then buf +:+ "(" else buf in
  let buf := buf +:+ c in
  let buf :=
    if (Z.of_nat i =? Z.of_nat (length runners) - 1) && ignoreError r
    then buf +:+ " ; true" else buf in
  let buf := if needsSubShell then buf +:+ ")" else buf in
  (buf, useGomacc).

Fixpoint genShellScript_loop (runners : list runner) (st : string * bool)
    (i : nat) (rest : list runner) : string * bool :=
  match rest with
  | [] => st
  | r :: rest' =>
      genShellScript_loop runners (genShellScript_body runners st i r) (S i) rest'
  end.

Definition genShellScript (runners : list runner) : string * bool :=
  let '(buf, useGomacc) := genShellScript_loop runners ("", false) O runners in
  (buf, negb (String.eqb gomaDir "") && negb useGomacc).

(** *** [genRuleName], [emitBuild], [getDepString] (lines 174-202) *)

Definition genRuleName (n : NinjaGenerator) : string * NinjaGenerator :=
  ("rule" +:+ pretty (ruleId n),
   {| f := f n; ruleId := wrap_int (ruleId n + 1); done := done n |}).

Definition emitBuild (n : NinjaGenerator) (output rule dep : string) : NinjaGenerator :=
  Fprintf n [LBuild output rule dep].

(** [None] when a pointer in [node.Deps] is nil. *)
Definition getDepString (node : DepNode) : option string :=
  ds ← mapM (fun p => heap !! p) (Deps node);
  let deps := Output <$> filter (fun d => IsOrderOnly d = false) ds in
  let orderOnlys := Output <$> filter (fun d => IsOrderOnly d = true) ds in
  let dep := "" in
  let dep := if (0 <? length deps)%nat then dep +:+ " " +:+ String.concat " " deps else dep in
  let dep :=
    if (0 <? length orderOnlys)%nat
    then dep +:+ " || " +:+ String.concat " " orderOnlys else dep in
  Some dep.

(** *** [emitNode] (lines 204-252) *)

Definition nilDeref : string :=
  "runtime error: invalid memory address or nil pointer dereference".

(** Lines 214-247: what is written for a node that has just been marked
    and is not a dangling leaf. *)
Definition emitStatements (n : NinjaGenerator) (node : DepNode) : outcome :=
  let runners := createRunners node in
  let res :=
    if (0 <? length runners)%nat then
      let '(ruleName, n) := genRuleName n in
      let n := Fprintf n [LRule ruleName] in
      let n := Fprintf n [LDescription] in
      let '(ss, ulp) := genShellScript runners in
      let useLocalPool := ulp in
      match getDepfile ss with
      | (_, Some err) => inr (n, err)
      | (depfile, None) =>
          let n := if negb (String.eqb depfile "") then Fprintf n [LDepfile depfile] else n in
          let '(n, ss) :=
            if ArgLenLimit <? Str.len ss
            then (Fprintf (Fprintf n [LRspfile]) [LRspfileContent ss], "sh $out.rsp")
            else (n, ss) in
          let n := Fprintf n [LCommand ss] in
          inl (n, ruleName, useLocalPool)
      end
    else inl (n, "phony", false) in
  match res with
  | inr (n, err) => Panic n err
  | inl (n, ruleName, useLocalPool) =>
      match getDepString node with
      | None => Panic n nilDeref
      | Some dep =>
          let n := emitBuild n (Output node) ruleName dep in
          Done (if useLocalPool then Fprintf n [LPool] else n)
      end
  end.

Fixpoint emitNode (fuel : nat) (n : NinjaGenerator) (p : nat) : outcome :=
  match fuel with
  | O => OutOfFuel
  | S fuel' =>
      match heap !! p with
      | None => Panic n nilDeref
      | Some node =>
          if bool_decide (Output node ∈ done n) then Done n
          else
            let n := mark n (Output node) in
            if (length (Cmds node) =? 0)%nat && (length (Deps node) =? 0)%nat
               && negb (IsPhony node)
            then Done n
            else
              match emitStatements n node with
              | Done n => eachNode (emitNode fuel') n (Deps node)
              | o => o
              end
      end
  end.

(** *** [generateNinja] (lines 286-306)

    Creating and closing the file are not modelled. *)
Definition newGenerator : NinjaGenerator := {| f := []; ruleId := 0; done := ∅ |}.

Definition generateNinja (fuel : nat) (nodes : list nat) : outcome :=
  let n := newGenerator in
  let n := Fprintf n [LHeader] in
  let n := Fprintf n [LBlank] in
  let n :=
    if negb (String.eqb gomaDir "")
    then Fprintf (Fprintf n [LPoolDecl]) [LDepth NumCPU] else n in
  eachNode (emitNode fuel) n nodes.

(** The run with the fuel that every store of this size needs at most
    (see [emitNode_terminates]). *)
Definition GenerateNinja (nodes : list nat) : outcome :=
  generateNinja (S (length heap)) nodes.

(** *** [generateShell] (lines 254-284)

    The evaluator is a capability of the repository; [EvaluateVar name] is
    [newEvaluator(n.vars).EvaluateVar(name)].  Go enumerates a map in an
    unspecified order: [order] is the order in which the runtime yields
    the entries of [n.exports] in this run.  Creating the file and making
    it executable are not modelled. *)
Variable EvaluateVar : string -> string.

Definition generateShell (order : list (string * bool)) : list shline :=
  let shell := EvaluateVar "SHELL" in
  let shell := if String.eqb shell "" then "/bin/sh" else shell in
  [ShBang shell]
  ++ map (fun '(name, export) =>
            if export : bool then ShExport name (EvaluateVar name) else ShUnset name)
         order
  ++ [if String.eqb gomaDir "" then ShExec "" else ShExec " -j300"].

(** [order] enumerates the map [exports]. *)
Definition enumerates (exports : gmap string bool) (order : list (string * bool)) : Prop :=
  order ≡ₚ map_to_list exports.

End Generator.

(** The scanner state of the code and the lexical state of the
    specification agree.  Inside single quotes the code keeps toggling
    [escape], which it never reads there. *)
Definition sim (escape : bool) (quote : ascii) (st : quoting * bool) : Prop :=
  match st with
  | (Unquoted, e) => quote = zero /\ escape = e
  | (InSingle, e) => quote = "'"%char /\ e = false
  | (q, e) => quote = closing q /\ escape = e
  end.

(** *** The chain text as the specification describes it (spec section 4.2)

    [semi] is the text that joins a command to an error-tolerant
    predecessor, [text] the command text of a runner, [wrap i t] whether the
    command at index [i] with text [t] goes into a sub-shell, and [total]
    the number of commands of the chain. *)
Section Chain.

Variable semi : string.
Variable text : runner -> string.
Variable wrap : nat -> string -> bool.
Variable total : nat.

Definition unit_at (i : nat) (r : runner) : string :=
  let t := text r in
  let trail := if (S i =? total)%nat && ignoreError r then " ; true" else "" in
  if wrap i t then "(" +:+ t +:+ trail +:+ ")" else t +:+ trail.

Fixpoint joined_after (prev : runner) (i : nat) (rest : list runner) : string :=
  match rest with
  | [] => ""
  | r :: rest' =>
      (if ignoreError prev then semi else " && ")
      +:+ unit_at i r +:+ joined_after r (S i) rest'
  end.

Definition joined (runners : list runner) : string :=
  match runners with
  | [] => ""
  | r :: rest => unit_at O r +:+ joined_after r 1 rest
  end.

End Chain.

Definition begins_with_paren (t : string) : bool :=
  bool_decide (String.get 0 t = Some "("%char).

(** The sub-shell rule of the specification: wrap unless the command is the
    only one of the chain and the first, or its text begins with [(]. *)
Definition wrap_rule (total i : nat) (t : string) : bool :=
  negb (((i =? 0)%nat && (total =? 1)%nat) || begins_with_paren t).

(** In a chain of two or more commands only the leading [(] matters. *)
Definition wrap_unless_paren (i : nat) (t : string) : bool :=
  negb (begins_with_paren t).

(** The chain of [runners] as built with [semi] between a command and an
    error-tolerant predecessor. *)
Definition chain_joined_with (semi gomaDir : string) (runners : list runner) : Prop :=
  (2 <= length runners)%nat ->
  fst (genShellScript gomaDir runners)
  = joined semi (fun r => fst (commandText gomaDir r)) wrap_unless_paren
      (length runners) runners.

(** *** The vocabulary of the depfile heuristics (spec section 4.3) *)

(** The command names the tool that writes no depfile. *)
Definition is_llvm_rs_cc (ss : string) : bool := Str.Contains ss "bin/llvm-rs-cc ".

(** [flag] occurs in [ss] between two blanks. *)
Definition flag_present (flag ss : string) : bool :=
  Str.Contains ss (" " +:+ flag +:+ " ").

(** Dependency tracking is requested: [-MD] or [-MMD] between blanks, the
    end of the command counting as a blank. *)
Definition tracking_requested (ss : string) : bool :=
  flag_present "-MD" (ss +:+ " ") || flag_present "-MMD" (ss +:+ " ").

(** The text behind the first occurrence of [pat]. *)
Definition after_first (pat ss : string) : string :=
  match Str.find_sub pat ss with
  | Some i => Str.drop (i + String.length pat) ss
  | None => ""
  end.

(** The text that starts with the argument of the first [flag]. *)
Definition argument_text (flag ss : string) : string :=
  trimLeftSpace (after_first (" " +:+ flag +:+ " ") ss).

(** The leading token of [s]: everything before its first blank, tab or
    line feed. *)
Definition first_token (s : string) : string :=
  match Str.find_byte (fun c => Str.mem c blanks) s with
  | Some i => Str.take i s
  | None => s
  end.

(** The token that follows the first [flag]. *)
Definition flag_argument (flag ss : string) : string :=
  first_token (argument_text flag ss).

(** [flag] occurs once more, in the text that starts with the argument of
    its first occurrence. *)
Definition repeated (flag ss : string) : bool :=
  flag_present flag (argument_text flag ss).




(** The text the assembly post-check looks for. *)
Definition assembly_source (r : string) : string :=
  "/" +:+ stripExt (Str.Base r) +:+ ".s".

(** The text the [.P] post-check looks for. *)
Definition P_variant (r : string) : string := stripExt r +:+ ".P".

(** The assembly post-check as the specification words it, at its own
    example. *)
Definition assembly_example_resolves_empty : Prop :=
  getDepfile "gcc -c foo.s -o foo.o -MD" = ("", None).

(** The three ways the flags leave no single candidate, a flag being
    present when it stands between two blanks of the command and occurring a
    second time when it stands between two blanks of the text that starts
    with the argument of its first occurrence.  The words of the command
    read as flags give another count, see [errors_as_worded]. *)
Definition ambiguous_or_missing (ss : string) : Prop :=
  (flag_present "-MF" ss = true /\ repeated "-MF" ss = true)
  \/ (flag_present "-MF" ss = false /\ flag_present "-o" ss = false)
  \/ (flag_present "-MF" ss = false /\ flag_present "-o" ss = true
      /\ repeated "-o" ss = true).

(** *** Reading the written files *)

(** The output a build statement is for. *)
Definition build_output (l : line) : option string :=
  match l with
  | LBuild o _ _ => Some o
  | _ => None
  end.

(** The number of build statements for [o]. *)
Definition builds_for (o : string) (log : list line) : nat :=
  length (filter (fun l => build_output l = Some o) log).

(** A rule block belongs to the build statement that follows it.
    [pending_after p log] is the number of rule blocks at the end of [log]
    that no build statement follows yet, [p] of them pending before [log]. *)
Fixpoint pending_after (p : nat) (log : list line) : nat :=
  match log with
  | [] => p
  | LRule _ :: log' => pending_after (S p) log'
  | LBuild _ _ _ :: log' => pending_after O log'
  | _ :: log' => pending_after p log'
  end.

(** The number of rule blocks that belong to a build statement for [o]. *)
Fixpoint rules_for_go (o : string) (p : nat) (log : list line) : nat :=
  match log with
  | [] => O
  | LRule _ :: log' => rules_for_go o (S p) log'
  | LBuild o' _ _ :: log' =>
      ((if decide (o' = o) then p else O) + rules_for_go o O log')%nat
  | _ :: log' => rules_for_go o p log'
  end.

Definition rules_for (o : string) (log : list line) : nat := rules_for_go o O log.

(** The state a call leaves behind, whether it returned or panicked. *)
Definition final_state (r : outcome) : option NinjaGenerator :=
  match r with
  | Done n | Panic n _ => Some n
  | OutOfFuel => None
  end.

(** The rule block of the specification for a chain text [ss]. *)
Definition rule_block (ruleName depfile ss : string) : list line :=
  [LRule ruleName; LDescription]
  ++ (if String.eqb depfile "" then [] else [LDepfile depfile])
  ++ (if Str.len ss <=? 100000
      then [LCommand ss]
      else [LRspfile; LRspfileContent ss; LCommand "sh $out.rsp"]).

(** The outputs of the nodes of a store, and how many of them a generator
    has not visited yet. *)
Definition outputs_of (heap : list DepNode) : gset string :=
  list_to_set (Output <$> heap).

Definition unvisited (heap : list DepNode) (n : NinjaGenerator) : nat :=
  size (outputs_of heap ∖ done n).

(** A node that [emitNode] marks and then skips. *)
Definition dangling (node : DepNode) : bool :=
  (length (Cmds node) =? 0)%nat && (length (Deps node) =? 0)%nat && negb (IsPhony node).

(** No output has more than one build statement or more than one rule
    block in [log]. *)
Definition at_most_once (log : list line) : Prop :=
  forall o, (builds_for o log <= 1)%nat /\ (rules_for o log <= 1)%nat.

(** The invariant of the traversal between two visits: no rule block is
    pending, nothing is emitted twice, and nothing is emitted for an output
    that is not marked. *)
Definition good (n : NinjaGenerator) : Prop :=
  pending_after O (f n) = O
  /\ at_most_once (f n)
  /\ forall o, o ∉ done n -> builds_for o (f n) = O /\ rules_for o (f n) = O.

(** The generator once [generateNinja] has written the head of the file. *)
Definition headerState (gomaDir : string) (NumCPU : Z) : NinjaGenerator :=
  Fprintf
    {| f := []; ruleId := 0; done := ∅ |}
    ([LHeader; LBlank]
     ++ (if String.eqb gomaDir "" then [] else [LPoolDecl; LDepth NumCPU])).

(** A diamond: [a] needs [b] and [c], which both need [d]. *)
Definition diamond : list DepNode :=
  [ {| Output := "a"; Cmds := ["ld"]; Deps := [1; 2]%nat; IsOrderOnly := false; IsPhony := false |};
    {| Output := "b"; Cmds := ["cc b"]; Deps := [3%nat]; IsOrderOnly := false; IsPhony := false |};
    {| Output := "c"; Cmds := ["cc c"]; Deps := [3%nat]; IsOrderOnly := false; IsPhony := false |};
    {| Output := "d"; Cmds := ["gen"]; Deps := []; IsOrderOnly := false; IsPhony := false |} ].

(** A cycle: [x] needs [y], and [y] needs [x]. *)
Definition cycle : list DepNode :=
  [ {| Output := "x"; Cmds := ["mk x"]; Deps := [1%nat]; IsOrderOnly := false; IsPhony := false |};
    {| Output := "y"; Cmds := ["mk y"]; Deps := [0%nat]; IsOrderOnly := false; IsPhony := false |} ].

(** An executor that runs the recipe lines as they are. *)
Definition plainRunners (node : DepNode) : list runner :=
  map (fun c => {| cmd := c; ignoreError := false |}) (Cmds node).

(** [s] holds no blank, tab or line feed. *)
Definition no_blank (s : string) : Prop :=
  Str.find_byte (fun c => Str.mem c blanks) s = None.

(** *** Reading more of build.ninja *)

(** The names of the rule blocks of [log], in the order of the file. *)
Definition rule_names (log : list line) : list string :=
  omap (fun l => match l with LRule r => Some r | _ => None end) log.

(** The name [genRuleName] gives to the rule number [i]. *)
Definition rule_name (i : nat) : string := "rule" +:+ pretty (Z.of_nat i).

(** Every build statement of [log] names the built-in rule [phony] or a
    rule declared before it, in [log] or among [declared]. *)
Fixpoint uses_declared (declared : list string) (log : list line) : bool :=
  match log with
  | [] => true
  | LRule r :: log' => uses_declared (r :: declared) log'
  | LBuild _ r _ :: log' =>
      (bool_decide (r = "phony") || bool_decide (r ∈ declared))
      && uses_declared declared log'
  | _ :: log' => uses_declared declared log'
  end.

(** The head of build.ninja: the header, a blank line, and the pool
    declaration when the accelerator is configured. *)
Definition file_head (gomaDir : string) (NumCPU : Z) : list line :=
  [LHeader; LBlank] ++ (if String.eqb gomaDir "" then [] else [LPoolDecl; LDepth NumCPU]).

(** [q] is reached from [p] along dependency pointers of the store. *)
Inductive reach (heap : list DepNode) : nat -> nat -> Prop :=
| reach_here (p : nat) : reach heap p p
| reach_dep (p d q : nat) (node : DepNode) :
    heap !! p = Some node -> d ∈ Deps node -> reach heap d q -> reach heap p q.

(** The output path identifies the node. *)
Definition unique_outputs (heap : list DepNode) : Prop := NoDup (Output <$> heap).

(** The pointer [p] is valid and the output of its node is marked. *)
Definition marked (heap : list DepNode) (n : NinjaGenerator) (p : nat) : Prop :=
  exists node, heap !! p = Some node /\ Output node ∈ done n.

(** Every marked node outside [S] has all its dependencies marked. *)
Definition closed (heap : list DepNode) (S : gset string) (n : NinjaGenerator) : Prop :=
  forall i q, heap !! i = Some q -> Output q ∈ done n -> Output q ∉ S ->
              forall d, d ∈ Deps q -> marked heap n d.

(** Every marked node has its build statement, unless it is dangling. *)
Definition built (heap : list DepNode) (n : NinjaGenerator) : Prop :=
  forall i q, heap !! i = Some q -> Output q ∈ done n ->
              builds_for (Output q) (f n) = if dangling q then O else 1%nat.

(** Every [$] of [s] belongs to a pair of adjacent [$]: the runs of [$] have
    even length.  [odd] tells that the first [$] of a pair has been read. *)
Fixpoint dollars_paired_go (odd : bool) (s : string) : bool :=
  match s with
  | EmptyString => negb odd
  | String c s' =>
      if Ascii.eqb c "$"%char then dollars_paired_go (negb odd) s'
      else if odd then false else dollars_paired_go false s'
  end.

Definition dollars_paired (s : string) : bool := dollars_paired_go false s.

(** *** The text of ninja.sh and its lines *)

(** A write to ninja.sh without the line feed that ends it. *)
Definition sh_text (l : shline) : string :=
  match l with
  | ShBang shell => "#!" +:+ shell
  | ShExport name value => "export " +:+ name +:+ "=" +:+ value
  | ShUnset name => "unset " +:+ name
  | ShExec args => "exec ninja" +:+ args
  end.

(** The bytes the writes put into the file, one after the other. *)
Fixpoint script_text (ls : list shline) : string :=
  match ls with
  | [] => ""
  | l :: ls' => render_sh l +:+ script_text ls'
  end.

(** The lines of a text: the pieces between its line feeds, [cur] being the
    piece read so far. *)
Fixpoint text_lines_go (cur s : string) : list string :=
  match s with
  | EmptyString => if String.eqb cur "" then [] else [cur]
  | String c s' =>
      if Ascii.eqb c Str.LF then cur :: text_lines_go "" s'
      else text_lines_go (cur +:+ Str.of_byte c) s'
  end.

Definition text_lines (s : string) : list string := text_lines_go "" s.

(** [s] holds no line feed. *)
Definition no_lf (s : string) : Prop := Str.mem Str.LF s = false.

(** The interpreter the script names. *)
Definition script_shell (EvaluateVar : string -> string) : string :=
  if String.eqb (EvaluateVar "SHELL") "" then "/bin/sh" else EvaluateVar "SHELL".

(** The line of an entry of the exports. *)
Definition entry_line (EvaluateVar : string -> string) (e : string * bool) : string :=
  if snd e then "export " +:+ fst e +:+ "=" +:+ EvaluateVar (fst e)
  else "unset " +:+ fst e.

(** No text that goes into the script holds a line feed: not the
    interpreter, no variable name, no evaluated text of an exported
    variable. *)
Definition single_lines (EvaluateVar : string -> string) (order : list (string * bool)) : Prop :=
  no_lf (script_shell EvaluateVar)
  /\ Forall (fun e => no_lf (fst e) /\ (snd e = true -> no_lf (EvaluateVar (fst e)))) order.

(** What the specification says of the launcher script, read on the lines
    of the file: the lines are the interpreter line, the line of every entry
    of the exports, and the call of ninja; every variable of the exports has
    one entry; and every export or unset line is the line of an entry. *)
Definition script_fidelity (gomaDir : string) (EvaluateVar : string -> string)
    (exports : gmap string bool) (order : list (string * bool)) : Prop :=
  let lines := text_lines (script_text (generateShell gomaDir EvaluateVar order)) in
  lines = ("#!" +:+ script_shell EvaluateVar)
          :: (entry_line EvaluateVar <$> order)
          ++ ["exec ninja" +:+ (if String.eqb gomaDir "" then "" else " -j300")]
  /\ NoDup (fst <$> order)
  /\ (forall name b, (name, b) ∈ order <-> exports !! name = Some b)
  /\ (forall l, l ∈ lines ->
        String.prefix "export " l = true \/ String.prefix "unset " l = true ->
        exists name b, exports !! name = Some b /\ l = entry_line EvaluateVar (name, b)).

(** An evaluator under which [FOO] holds two lines. *)
Definition two_line_FOO (name : string) : string :=
  if String.eqb name "FOO" then "x" +:+ NL +:+ "unset PATH" else "".

(** *** Flags as words of the command, and characters of a text *)

(** The words of a command: the pieces between blanks, tabs and line
    feeds. *)
Fixpoint words_go (cur s : string) : list string :=
  match s with
  | EmptyString => if String.eqb cur "" then [] else [cur]
  | String c s' =>
      if Str.mem c blanks
      then (if String.eqb cur "" then [] else [cur]) ++ words_go "" s'
      else words_go (cur +:+ Str.of_byte c) s'
  end.

(** How often [flag] stands as a word of [ss]. *)
Definition occurrences (flag ss : string) : nat :=
  length (filter (fun w => w = flag) (words_go "" ss)).

(** The error cases as the specification words them, with a flag present
    when it is a word of the command and a second occurrence being a second
    such word. *)
Definition errors_as_worded (ss : string) : Prop :=
  is_llvm_rs_cc ss = false ->
  (0 < occurrences "-MD" ss \/ 0 < occurrences "-MMD" ss)%nat ->
  (snd (getDepfile ss) <> None
   <-> (2 <= occurrences "-MF" ss)%nat
       \/ (occurrences "-MF" ss = O /\ occurrences "-o" ss = O)
       \/ (occurrences "-MF" ss = O /\ 2 <= occurrences "-o" ss)%nat).

(** A byte that continues a multi-byte UTF-8 character. *)
Definition is_continuation (c : ascii) : bool :=
  ((128 <=? N_of_ascii c) && (N_of_ascii c <? 192))%N.

(** The number of characters of a UTF-8 text. *)
Fixpoint utf8_count (s : string) : Z :=
  match s with
  | EmptyString => 0
  | String c s' => (if is_continuation c then 0 else 1) + utf8_count s'
  end.

(** [k] copies of [unit]. *)
Definition copies (unit : string) (k : N) : string := N.iter k (String.append unit) "".

(** The letter e with an acute accent, two bytes in UTF-8. *)
Definition e_acute : string := String "195" (String "169" "").

(** The call wrote an [rspfile] line. *)
Definition has_rspfile (r : outcome) : bool :=
  match final_state r with
  | Some n => existsb (fun l => match l with LRspfile => true | _ => false end) (f n)
  | None => false
  end.

(** The spill threshold as the specification words it, in characters. *)
Definition spills_by_characters (gomaDir : string)
    (createRunners : DepNode -> list runner) (heap : list DepNode)
    (n : NinjaGenerator) (node : DepNode) : Prop :=
  createRunners node <> [] ->
  let ss := fst (genShellScript gomaDir (createRunners node)) in
  (utf8_count ss <= 100000 ->
   has_rspfile (emitStatements gomaDir createRunners heap n node) = false)
  /\ (100000 < utf8_count ss ->
      has_rspfile (emitStatements gomaDir createRunners heap n node) = true).

(** A node without dependencies, and executors that give it one long
    command. *)
Definition lone : DepNode :=
  {| Output := "o"; Cmds := ["x"]; Deps := []; IsOrderOnly := false; IsPhony := false |}.

Definition oneRunner (text : string) (node : DepNode) : list runner :=
  [ {| cmd := text; ignoreError := false |} ].

(* ================================================================= *)
(** * Verified properties *)

(** ** Byte strings *)

Lemma append_nil_r (s : string) : s +:+ "" = s.
Proof. induction s; simpl; congruence. Qed.

Lemma append_assoc (a b c : string) : (a +:+ b) +:+ c = a +:+ b +:+ c.
Proof. induction a; simpl; congruence. Qed.

Lemma append_snoc (a : string) (c : ascii) (b : string) :
  (a +:+ Str.of_byte c) +:+ b = a +:+ String c b.
Proof. rewrite append_assoc. reflexivity. Qed.

Lemma length_append (a b : string) :
  String.length (a +:+ b) = (String.length a + String.length b)%nat.
Proof. induction a; simpl; congruence. Qed.

Lemma take_append (a b : string) (j : nat) :
  Str.take (String.length a + j) (a +:+ b) = a +:+ Str.take j b.
Proof. induction a; simpl; [destruct j, b; reflexivity | congruence]. Qed.

Lemma take_all (s : string) : Str.take (String.length s) s = s.
Proof. induction s; simpl; congruence. Qed.

Lemma find_byte_none (p : ascii -> bool) (s : string) (i : nat) (c : ascii) :
  Str.find_byte p s = None -> String.get i s = Some c -> p c = false.
Proof.
  revert i. induction s as [|d s IH]; intros i Hf Hg; [discriminate|].
  simpl in Hf. destruct (p d) eqn:Hd; [discriminate|].
  destruct (Str.find_byte p s); [discriminate|].
  destruct i; simpl in Hg; [congruence | eauto].
Qed.

(** ** Comment stripping *)


Lemma eqb_ne (c d : ascii) : c <> d -> Ascii.eqb c d = false.
Proof. apply Ascii.eqb_neq. Qed.

Lemma eqb_ne' (c d : ascii) : c <> d -> Ascii.eqb d c = false.
Proof. intros H. apply Ascii.eqb_neq. congruence. Qed.

(** Case analysis on a byte against the five characters the scanner tests;
    in the last case every comparison with them is rewritten to [false]. *)
Ltac scan_cases c tac :=
  destruct (Ascii.eqb_spec c "#"%char) as [->|?N1]; [tac|];
  destruct (Ascii.eqb_spec c "'"%char) as [->|?N2]; [tac|];
  destruct (Ascii.eqb_spec c Str.DQUOTE) as [->|?N3]; [tac|];
  destruct (Ascii.eqb_spec c "`"%char) as [->|?N4]; [tac|];
  destruct (Ascii.eqb_spec c Str.BACKSL) as [->|?N5]; [tac|];
  unfold stripStep, lex_step, is_quote_char, opening, closing;
  fold Str.DQUOTE;
  rewrite ?(eqb_ne _ _ N1), ?(eqb_ne _ _ N2), ?(eqb_ne _ _ N3), ?(eqb_ne _ _ N4),
    ?(eqb_ne _ _ N5), ?(eqb_ne' _ _ N1), ?(eqb_ne' _ _ N2), ?(eqb_ne' _ _ N3),
    ?(eqb_ne' _ _ N4), ?(eqb_ne' _ _ N5).

Lemma stripStep_sim (escape : bool) (quote : ascii) (st : quoting * bool) (c : ascii) :
  sim escape quote st ->
  match stripStep escape quote c with
  | None => st = (Unquoted, false) /\ c = "#"%char
  | Some (e', q') => sim e' q' (lex_step st c) /\ ~ (st = (Unquoted, false) /\ c = "#"%char)
  end.
Proof.
  destruct st as [[] e]; simpl; intros [-> He]; destruct escape, e; try discriminate He; clear He;
    scan_cases c ltac:(vm_compute; intuition congruence);
    vm_compute; intuition congruence.
Qed.

Lemma comment_start_from_S (st : quoting * bool) (c : ascii) (s : string) (j : nat) :
  comment_start_from st (String c s) (S j) <-> comment_start_from (lex_step st c) s j.
Proof. reflexivity. Qed.

Lemma comment_start_from_O (st : quoting * bool) (c : ascii) (s : string) :
  comment_start_from st (String c s) O <-> st = (Unquoted, false) /\ c = "#"%char.
Proof.
  unfold comment_start_from. simpl. split.
  - intros [[= ->] ->]. done.
  - intros [-> ->]. done.
Qed.

(** The loop returns the text cut at the first comment start, and the whole
    text when there is none. *)
Lemma stripLoop_spec (rest pre : string) (escape : bool) (quote : ascii)
    (st : quoting * bool) :
  sim escape quote st ->
  (forall j, comment_start_from st rest j ->
             (forall k, (k < j)%nat -> ~ comment_start_from st rest k) ->
             stripLoop (pre +:+ rest) escape quote (Str.len pre) rest
             = pre +:+ Str.take j rest)
  /\ ((forall j, ~ comment_start_from st rest j) ->
      stripLoop (pre +:+ rest) escape quote (Str.len pre) rest = pre +:+ rest).
Proof.
  revert pre escape quote st.
  induction rest as [|c rest IH]; intros pre escape quote st Hsim.
  - split; [|done]. intros j [Hg _]. destruct j; discriminate.
  - simpl. pose proof (stripStep_sim escape quote st c Hsim) as Hstep.
    destruct (stripStep escape quote c) as [[e' q']|].
    + destruct Hstep as [Hsim' Hno].
      destruct (IH (pre +:+ Str.of_byte c) e' q' _ Hsim') as [IH1 IH2].
      rewrite append_snoc in IH1, IH2.
      replace (Str.len (pre +:+ Str.of_byte c)) with (Str.len pre + 1) in IH1, IH2
        by (unfold Str.len; rewrite length_append; simpl; lia).
      split.
      * intros [|j] Hj Hmin; [apply comment_start_from_O in Hj; tauto|].
        rewrite (IH1 j); [by rewrite append_snoc | by apply comment_start_from_S |].
        intros k Hk Hc. apply (Hmin (S k)); [lia | by apply comment_start_from_S].
      * intros Hnone. apply IH2. intros j Hj.
        apply (Hnone (S j)). by apply comment_start_from_S.
    + destruct Hstep as [-> ->]. unfold Str.slice_to, Str.len.
      rewrite Nat2Z.id.
      replace (String.length pre) with (String.length pre + 0)%nat by lia.
      rewrite take_append. split.
      * intros [|j] _ Hmin; [done|]. exfalso. apply (Hmin O); [lia|].
        by apply comment_start_from_O.
      * intros Hnone. exfalso. apply (Hnone O). by apply comment_start_from_O.
Qed.

(** C3. [stripShellComment s] is [s] cut at the first [#] that lies outside
    single quotes, double quotes and backticks and is not escaped by a
    backslash, and is [s] itself when there is no such [#]; inside single
    quotes a backslash does not escape the closing quote.  The two examples
    of the specification evaluate as it says. *)
Theorem stripShellComment_spec :
  (forall s i, comment_start s i ->
               (forall j, (j < i)%nat -> ~ comment_start s j) ->
               stripShellComment s = Str.take i s)
  /\ (forall s, (forall i, ~ comment_start s i) -> stripShellComment s = s)
  /\ (forall escape, stripStep escape "'"%char "'"%char = Some (false, zero))
  /\ stripShellComment "echo 'a\' #b" = "echo 'a\' "
  /\ stripShellComment "echo 'a#b'" = "echo 'a#b'"
  /\ stripShellComment "echo a #comment" = "echo a ".
Proof.
  assert (Hloop : forall s, stripLoop s false zero 0 s = stripLoop ("" +:+ s) false zero (Str.len "") s)
    by reflexivity.
  repeat split; try reflexivity.
  - intros s i Hi Hmin. unfold stripShellComment.
    destruct (Z.ltb_spec (Str.IndexByte s "#"%char) 0) as [Hlt|_].
    + exfalso. unfold Str.IndexByte in Hlt. destruct Hi as [Hg _].
      destruct (Str.find_byte _ s) eqn:Hf; [simpl in Hlt; lia|].
      by apply (find_byte_none _ _ _ _ Hf) in Hg.
    + rewrite Hloop.
      by apply (proj1 (stripLoop_spec s "" false zero (Unquoted, false) (conj eq_refl eq_refl))).
  - intros s Hnone. unfold stripShellComment.
    destruct (Z.ltb_spec (Str.IndexByte s "#"%char) 0) as [Hlt|_]; [done|].
    rewrite Hloop.
    by apply (proj2 (stripLoop_spec s "" false zero (Unquoted, false) (conj eq_refl eq_refl))).
  - by intros [].
Qed.

Lemma stripShellComment_spec_witness :
  comment_start "make # all" 5
  /\ stripShellComment "make # all" = Str.take 5 "make # all".
Proof.
  assert (H : comment_start "make # all" 5) by (split; reflexivity).
  split; [exact H|].
  apply (proj1 stripShellComment_spec _ 5%nat H).
  intros j Hj [Hg _].
  do 5 (destruct j as [|j]; [discriminate Hg|]). lia.
Defined.

(** ** The command chain *)

Section ChainProofs.

Variable gomaDir : string.
Variable runners : list runner.
Variable wrap : nat -> string -> bool.

Let text (r : runner) : string := fst (commandText gomaDir r).
Let total : nat := length runners.

(** [wrap] decides as the code does at every index of the chain. *)
Hypothesis wrap_code : forall i t, (i < total)%nat ->
  wrap i t = (if begins_with_paren t then false else (0 <? i)%nat || (1 <? total)%nat).

Lemma genShellScript_body_unit (buf : string) (used : bool) (i : nat) (r : runner) :
  (i < total)%nat ->
  fst (genShellScript_body gomaDir runners (buf, used) i r)
  = (if (0 <? i)%nat
     then if prevIgnoreError runners i then buf +:+ " ; " else buf +:+ " && "
     else buf)
    +:+ unit_at text wrap total i r.
Proof.
  intros Hi. unfold genShellScript_body, unit_at, text.
  destruct (commandText gomaDir r) as [c u]. cbn [fst].
  rewrite (wrap_code i c Hi). unfold begins_with_paren.
  replace (Z.of_nat i =? Z.of_nat (length runners) - 1) with (S i =? total)%nat
    by (unfold total; destruct (Nat.eqb_spec (S i) (length runners));
        destruct (Z.eqb_spec (Z.of_nat i) (Z.of_nat (length runners) - 1)); lia || done).
  unfold total.
  destruct (bool_decide _), ((0 <? i)%nat || (1 <? length runners)%nat),
    ((S i =? length runners)%nat && ignoreError r); cbn [fst];
    rewrite ?append_assoc, ?append_nil_r; reflexivity.
Qed.

Lemma genShellScript_loop_joined (rest : list runner) :
  forall (pre : list runner) (prev : runner) (buf : string) (used : bool),
    runners = pre ++ prev :: rest ->
    fst (genShellScript_loop gomaDir runners (buf, used) (S (length pre)) rest)
    = buf +:+ joined_after " ; " text wrap total prev (S (length pre)) rest.
Proof.
  induction rest as [|r rest IH]; intros pre prev buf used Hr;
    cbn [genShellScript_loop joined_after fst].
  - by rewrite append_nil_r.
  - assert (Hi : (S (length pre) < total)%nat).
    { unfold total. rewrite Hr, length_app. simpl. lia. }
    pose proof (genShellScript_body_unit buf used _ r Hi) as Hb.
    destruct (genShellScript_body gomaDir runners (buf, used) (S (length pre)) r)
      as [buf' used'].
    cbn [fst] in Hb. subst buf'.
    replace (S (S (length pre))) with (S (length (pre ++ [prev])))
      by (rewrite length_app; simpl; lia).
    rewrite (IH (pre ++ [prev]) r); [|by rewrite <- app_assoc].
    assert (Hp : prevIgnoreError runners (S (length pre)) = ignoreError prev).
    { unfold prevIgnoreError. simpl. rewrite Nat.sub_0_r, Hr.
      by rewrite list_lookup_middle. }
    rewrite Hp. change (0 <? S (length pre))%nat with true. cbn match.
    destruct (ignoreError prev); by rewrite !append_assoc.
Qed.

Lemma genShellScript_joined :
  fst (genShellScript gomaDir runners) = joined " ; " text wrap total runners.
Proof.
  unfold genShellScript.
  destruct (genShellScript_loop gomaDir runners ("", false) 0 runners)
    as [buf used] eqn:Hl.
  cbn [fst]. change buf with (fst (buf, used)). rewrite <- Hl. clear Hl buf used.
  assert (Hgen : forall rs, runners = rs ->
            fst (genShellScript_loop gomaDir runners ("", false) 0 rs)
            = joined " ; " text wrap total rs); [|by apply Hgen].
  intros [|r rest] Hr; [reflexivity|].
  cbn [genShellScript_loop joined].
  assert (Hi : (0 < total)%nat) by (unfold total; rewrite Hr; simpl; lia).
  pose proof (genShellScript_body_unit "" false O r Hi) as Hb.
  destruct (genShellScript_body gomaDir runners ("", false) 0 r) as [buf' used'].
  cbn [fst] in Hb. subst buf'.
  by rewrite (genShellScript_loop_joined rest [] r).
Qed.

End ChainProofs.


Lemma wrap_rule_false (total i : nat) (t : string) :
  wrap_rule total i t = false
  <-> (i = O /\ total = 1%nat) \/ String.get 0 t = Some "("%char.
Proof.
  unfold wrap_rule, begins_with_paren.
  rewrite negb_false_iff, orb_true_iff, andb_true_iff, !Nat.eqb_eq, bool_decide_eq_true.
  tauto.
Qed.

(** C8. Every command of a chain is written inside [(] and [)] unless it is
    the only command of the chain (index 0 of 1) or its text begins with
    [(]; in those cases it is written bare. *)
Theorem genShellScript_subshell (gomaDir : string) (runners : list runner) :
  fst (genShellScript gomaDir runners)
  = joined " ; " (fun r => fst (commandText gomaDir r)) (wrap_rule (length runners))
      (length runners) runners
  /\ (forall i t, wrap_rule (length runners) i t = false
                  <-> (i = O /\ length runners = 1%nat) \/ String.get 0 t = Some "("%char).
Proof.
  split; [|intros; apply wrap_rule_false].
  apply genShellScript_joined. intros i t Hi. unfold wrap_rule.
  destruct (begins_with_paren t); [by rewrite orb_true_r|].
  rewrite orb_false_r.
  destruct i, (length runners) as [|[|n]]; simpl; done || lia.
Qed.

(** C2 (as amended). In a chain of two or more commands every command is
    joined to its predecessor by [" ; "] when the predecessor ignores errors
    and by [" && "] when it does not, and [" ; true"] follows the last
    command when that one ignores errors. *)
Theorem genShellScript_join (gomaDir : string) (runners : list runner) :
  chain_joined_with " ; " gomaDir runners.
Proof.
  intros Hlen. apply genShellScript_joined. intros i t Hi.
  unfold wrap_unless_paren.
  destruct (begins_with_paren t); [done|].
  destruct i, (length runners) as [|[|n]]; simpl; done || lia.
Qed.

Lemma genShellScript_join_witness :
  fst (genShellScript "" [ {| cmd := "mkdir out"; ignoreError := true |};
                           {| cmd := "cc -c a.c"; ignoreError := false |} ])
  = "(mkdir out) ; (cc -c a.c)".
Proof.
  exact (genShellScript_join ""
           [ {| cmd := "mkdir out"; ignoreError := true |};
             {| cmd := "cc -c a.c"; ignoreError := false |} ]
           (le_n 2)).
Defined.

(** Counterexample to the joining claim as the specification words it: the
    separator after an error-tolerant command would be ["; "], and the code
    writes [" ; "]. *)
Lemma genShellScript_join_semicolon_counterexample :
  ~ chain_joined_with "; " ""
      [ {| cmd := "a"; ignoreError := true |}; {| cmd := "b"; ignoreError := false |} ].
Proof. intros H. specialize (H (le_n 2)). vm_compute in H. discriminate H. Qed.

(** ** Depfile resolution *)

Lemma drop_add (i k : nat) (s : string) : Str.drop (i + k) s = Str.drop k (Str.drop i s).
Proof.
  revert s. induction i as [|i IH]; intros s; [done|].
  destruct s; simpl; [by destruct k | apply IH].
Qed.

Lemma drop_append (a b : string) : Str.drop (String.length a) (a +:+ b) = b.
Proof. induction a; simpl; done. Qed.

Lemma prefix_split (p s : string) :
  String.prefix p s = true -> s = p +:+ Str.drop (String.length p) s.
Proof.
  revert s. induction p as [|c p IH]; intros s H; [done|].
  destruct s as [|d s]; [discriminate|]. simpl in H.
  destruct (ascii_dec c d) as [->|]; [|discriminate].
  simpl. f_equal. by apply IH.
Qed.

Lemma find_sub_eq (pat s : string) :
  Str.find_sub pat s =
    if String.prefix pat s then Some O
    else match s with
         | EmptyString => None
         | String _ s' => S <$> Str.find_sub pat s'
         end.
Proof. destruct s; reflexivity. Qed.

Lemma find_sub_split (pat s : string) (i : nat) :
  Str.find_sub pat s = Some i ->
  Str.drop i s = pat +:+ Str.drop (i + String.length pat) s.
Proof.
  revert i. induction s as [|c s IH]; intros i; rewrite find_sub_eq;
    destruct (String.prefix pat _) eqn:Hp;
    try (intros [= <-]; by apply prefix_split); try discriminate.
  destruct (Str.find_sub pat s) as [j|] eqn:Hj; [|discriminate].
  intros [= <-]. cbn [Str.drop Nat.add]. by apply IH.
Qed.

Lemma Contains_find (s sub : string) :
  Str.Contains s sub = match Str.find_sub sub s with Some _ => true | None => false end.
Proof.
  unfold Str.Contains, Str.Index. destruct (Str.find_sub sub s); simpl; [|done].
  apply Z.leb_le. lia.
Qed.

Lemma Index_nonneg (s sub : string) : (0 <=? Str.Index s sub) = Str.Contains s sub.
Proof. reflexivity. Qed.

Lemma Index_neg (s sub : string) : (Str.Index s sub <? 0) = negb (Str.Contains s sub).
Proof. unfold Str.Contains. rewrite Z.ltb_antisym. done. Qed.

(** The text the code isolates behind the first [flag]: it slices four
    bytes behind the match both for [" -MF "] and for [" -o "]. *)
Lemma slice_argument_text (flag ss : string) :
  (String.length flag = 2 \/ String.length flag = 3)%nat ->
  flag_present flag ss = true ->
  trimLeftSpace (Str.slice_from ss (Str.Index ss (" " +:+ flag +:+ " ") + 4))
  = argument_text flag ss.
Proof.
  intros Hlen. unfold flag_present, argument_text, after_first, Str.slice_from.
  rewrite Contains_find. unfold Str.Index.
  destruct (Str.find_sub _ ss) as [i|] eqn:Hf; [intros _|discriminate].
  cbn [Str.pos]. replace (Z.to_nat (Z.of_nat i + 4)) with (i + 4)%nat by lia.
  apply find_sub_split in Hf. rewrite !drop_add, Hf.
  destruct flag as [|a [|b [|c [|d flag]]]]; simpl in Hlen; try lia; reflexivity.
Qed.

Lemma token_first (s : string) :
  (if 0 <=? Str.IndexAny s blanks then Str.slice_to s (Str.IndexAny s blanks) else s)
  = first_token s.
Proof.
  unfold Str.IndexAny, first_token, Str.slice_to.
  destruct (Str.find_byte _ s) as [i|]; cbn [Str.pos]; [|done].
  rewrite Nat2Z.id. destruct (Z.leb_spec 0 (Z.of_nat i)); [done | lia].
Qed.

(** [getDepfileImpl] in the vocabulary of the specification. *)
Lemma getDepfileImpl_cases (ss : string) :
  getDepfileImpl ss =
    if negb (tracking_requested ss) then ("", None)
    else if flag_present "-MF" ss then
      if repeated "-MF" ss
      then ("", Some ("Multiple output file candidates in " +:+ ss))
      else (flag_argument "-MF" ss, None)
    else if negb (flag_present "-o" ss)
      then ("", Some ("Cannot find the depfile in " +:+ ss))
    else if repeated "-o" ss
      then ("", Some ("Multiple output file candidates in " +:+ ss))
    else (stripExt (flag_argument "-o" ss) +:+ ".d", None).
Proof.
  unfold getDepfileImpl, tracking_requested.
  change (Str.Contains (ss +:+ " ") " -MD ") with (flag_present "-MD" (ss +:+ " ")).
  change (Str.Contains (ss +:+ " ") " -MMD ") with (flag_present "-MMD" (ss +:+ " ")).
  rewrite <- negb_orb.
  destruct (flag_present "-MD" (ss +:+ " ") || flag_present "-MMD" (ss +:+ " "));
    cbn [negb]; [|done].
  rewrite !Index_nonneg, Index_neg.
  change (Str.Contains ss " -MF ") with (flag_present "-MF" ss).
  change (Str.Contains ss " -o ") with (flag_present "-o" ss).
  destruct (flag_present "-MF" ss) eqn:Hmf.
  - change " -MF " with (" " +:+ "-MF" +:+ " ").
    rewrite (slice_argument_text "-MF" ss), token_first by (simpl; auto).
    reflexivity.
  - destruct (flag_present "-o" ss) eqn:Ho; cbn [negb]; [|done].
    change " -o " with (" " +:+ "-o" +:+ " ").
    rewrite (slice_argument_text "-o" ss), token_first by (simpl; auto).
    reflexivity.
Qed.


(** [getDepfile] on top of [getDepfileImpl]: errors pass through, an empty
    path stays empty, then the [.P] and the assembly post-checks apply. *)
Lemma getDepfile_cases (ss : string) :
  getDepfile ss =
    if is_llvm_rs_cc ss then ("", None)
    else match getDepfileImpl ss with
         | (r, Some e) => (r, Some e)
         | (r, None) =>
             if String.eqb r "" then ("", None)
             else if Str.Contains ss (P_variant r) then (P_variant r, None)
             else if Str.Contains ss (assembly_source r) then ("", None)
             else (r, None)
         end.
Proof.
  unfold getDepfile, is_llvm_rs_cc.
  destruct (Str.Contains ss "bin/llvm-rs-cc "); [done|].
  destruct (getDepfileImpl ss) as [r [e|]].
  - rewrite (bool_decide_eq_true_2 (Some e <> None)) by done. by rewrite orb_true_r.
  - rewrite (bool_decide_eq_false_2 (None <> None)) by (intros H; by apply H).
    rewrite orb_false_r. destruct (String.eqb_spec r ""); [by subst|done].
Qed.




(** C6 (as amended). When the command contains the assembly source of the
    derived path, that is [/] followed by the stem of its basename and [.s],
    and does not contain its [.P] variant, the resolver answers the empty
    path without error; so it does for [gcc -c src/foo.s -o foo.o -MD]. *)
Theorem getDepfile_assembly (ss r : string) :
  is_llvm_rs_cc ss = false ->
  getDepfileImpl ss = (r, None) ->
  Str.Contains ss (P_variant r) = false ->
  Str.Contains ss (assembly_source r) = true ->
  getDepfile ss = ("", None)
  /\ getDepfile "gcc -c src/foo.s -o foo.o -MD" = ("", None).
Proof.
  intros Hl Hi HP HS. split; [|reflexivity].
  rewrite getDepfile_cases, Hl, Hi, HP, HS. by destruct (String.eqb r "").
Qed.

Lemma getDepfile_assembly_witness :
  getDepfile "gcc -c src/foo.s -o foo.o -MD" = ("", None).
Proof.
  exact (proj1 (getDepfile_assembly "gcc -c src/foo.s -o foo.o -MD" "foo.d"
                  eq_refl eq_refl eq_refl eq_refl)).
Defined.

(** Counterexample to the assembly claim at the example of the
    specification: the command holds [foo.s] behind a blank, not [/foo.s],
    and resolves to [foo.d]. *)
Lemma getDepfile_assembly_counterexample :
  ~ assembly_example_resolves_empty
  /\ getDepfile "gcc -c foo.s -o foo.o -MD" = ("foo.d", None).
Proof. split; [intros H; vm_compute in H; discriminate H | reflexivity]. Qed.

(** The resolver fails exactly when the flags leave no single candidate. *)
Lemma getDepfile_error_iff (ss : string) :
  is_llvm_rs_cc ss = false -> tracking_requested ss = true ->
  (snd (getDepfile ss) <> None <-> ambiguous_or_missing ss)
  /\ (flag_present "-MF" ss = true -> repeated "-MF" ss = true ->
      getDepfile ss = ("", Some ("Multiple output file candidates in " +:+ ss)))
  /\ (flag_present "-MF" ss = false -> flag_present "-o" ss = false ->
      getDepfile ss = ("", Some ("Cannot find the depfile in " +:+ ss)))
  /\ (flag_present "-MF" ss = false -> flag_present "-o" ss = true ->
      repeated "-o" ss = true ->
      getDepfile ss = ("", Some ("Multiple output file candidates in " +:+ ss))).
Proof.
  intros Hl Ht. unfold ambiguous_or_missing.
  rewrite getDepfile_cases, Hl, getDepfileImpl_cases, Ht. cbn [negb].
  destruct (flag_present "-MF" ss), (flag_present "-o" ss);
    destruct (repeated "-MF" ss), (repeated "-o" ss); cbn [negb];
    repeat match goal with
      | |- context [if String.eqb ?r "" then _ else _] => destruct (String.eqb r "")
      | |- context [if Str.Contains ?a ?b then _ else _] => destruct (Str.Contains a b)
      end; cbn [snd]; intuition congruence.
Qed.

(** ** The traversal *)

Lemma builds_for_app (o : string) (l1 l2 : list line) :
  builds_for o (l1 ++ l2) = (builds_for o l1 + builds_for o l2)%nat.
Proof. unfold builds_for. by rewrite filter_app, length_app. Qed.

Lemma pending_after_app (l1 l2 : list line) (p : nat) :
  pending_after p (l1 ++ l2) = pending_after (pending_after p l1) l2.
Proof. revert p. induction l1 as [|[] l1 IH]; intros p; simpl; auto. Qed.

Lemma rules_for_go_app (o : string) (l1 l2 : list line) (p : nat) :
  rules_for_go o p (l1 ++ l2)
  = (rules_for_go o p l1 + rules_for_go o (pending_after p l1) l2)%nat.
Proof.
  revert p. induction l1 as [|[] l1 IH]; intros p; simpl; auto.
  rewrite IH. lia.
Qed.

Lemma Fprintf_Fprintf (n : NinjaGenerator) (a b : list line) :
  Fprintf (Fprintf n a) b = Fprintf n (a ++ b).
Proof. unfold Fprintf. simpl. by rewrite app_assoc. Qed.

Lemma eachNode_inv (visit : NinjaGenerator -> nat -> outcome)
    (I Q : NinjaGenerator -> Prop) (F : Prop) :
  (forall n p, I n ->
     match visit n p with
     | Done n' => I n' /\ done n ⊆ done n'
     | Panic n' _ => Q n'
     | OutOfFuel => F
     end) ->
  forall ps n, I n ->
    match eachNode visit n ps with
    | Done n' => I n' /\ done n ⊆ done n'
    | Panic n' _ => Q n'
    | OutOfFuel => F
    end.
Proof.
  intros Hv ps. induction ps as [|p ps IH]; intros n Hn; simpl; [done|].
  specialize (Hv n p Hn). destruct (visit n p) as [n'| |]; [|done..].
  destruct Hv as [Hn' Hsub]. specialize (IH n' Hn').
  destruct (eachNode visit n' ps); [|done..].
  destruct IH. split; [done | set_solver].
Qed.

Lemma eachNode_panic (visit : NinjaGenerator -> nat -> outcome) (pre post : list nat)
    (p : nat) (n n1 n2 : NinjaGenerator) (err : string) :
  eachNode visit n pre = Done n1 ->
  visit n1 p = Panic n2 err ->
  eachNode visit n (pre ++ p :: post) = Panic n2 err.
Proof.
  revert n. induction pre as [|q pre IH]; intros n; simpl.
  - intros [= ->] ->. done.
  - destruct (visit n q); [|discriminate..]. apply IH.
Qed.

Lemma eachNode_ext (v1 v2 : NinjaGenerator -> nat -> outcome) (ps : list nat) :
  (forall n p, v1 n p <> OutOfFuel -> v2 n p = v1 n p) ->
  forall n, eachNode v1 n ps <> OutOfFuel -> eachNode v2 n ps = eachNode v1 n ps.
Proof.
  intros Hv. induction ps as [|p ps IH]; intros n Hne; simpl in *; [done|].
  rewrite Hv by (intros Heq; by rewrite Heq in Hne).
  destruct (v1 n p); [by apply IH | done..].
Qed.

Lemma eachNode_pointwise (v1 v2 : NinjaGenerator -> nat -> outcome) (ps : list nat) :
  (forall n p, v2 n p = v1 n p) ->
  forall n, eachNode v2 n ps = eachNode v1 n ps.
Proof.
  intros Hv. induction ps as [|p ps IH]; intros n; simpl; [done|].
  rewrite Hv. destruct (v1 n p); [apply IH | done..].
Qed.

Section Traversal.

Variable gomaDir : string.
Variable createRunners : DepNode -> list runner.
Variable heap : list DepNode.

(** What [emitStatements] writes, case by case. *)
Lemma emitStatements_eq (n : NinjaGenerator) (node : DepNode) :
  emitStatements gomaDir createRunners heap n node =
    match createRunners node with
    | [] =>
        match getDepString heap node with
        | None => Panic n nilDeref
        | Some dep => Done (Fprintf n [LBuild (Output node) "phony" dep])
        end
    | _ :: _ =>
        let ss := fst (genShellScript gomaDir (createRunners node)) in
        let ulp := snd (genShellScript gomaDir (createRunners node)) in
        let ruleName := fst (genRuleName n) in
        let n1 := snd (genRuleName n) in
        match getDepfile ss with
        | (_, Some err) => Panic (Fprintf n1 [LRule ruleName; LDescription]) err
        | (depfile, None) =>
            match getDepString heap node with
            | None => Panic (Fprintf n1 (rule_block ruleName depfile ss)) nilDeref
            | Some dep =>
                Done (Fprintf n1 (rule_block ruleName depfile ss
                                  ++ [LBuild (Output node) ruleName dep]
                                  ++ (if ulp then [LPool] else [])))
            end
        end
    end.
Proof.
  unfold emitStatements.
  destruct (createRunners node) as [|r rs] eqn:Hr; [reflexivity|].
  change (0 <? length (r :: rs))%nat with true. cbn match.
  unfold genRuleName, emitBuild. cbn [fst snd].
  destruct (genShellScript gomaDir (r :: rs)) as [ss ulp]. cbn [fst snd].
  destruct (getDepfile ss) as [depfile [err|]]; [by rewrite Fprintf_Fprintf|].
  unfold rule_block, ArgLenLimit.
  replace (Str.len ss <=? 100000) with (negb (100 * 1000 <? Str.len ss))
    by (rewrite Z.leb_antisym; done).
  destruct (String.eqb depfile ""), (100 * 1000 <? Str.len ss); cbn [negb];
    destruct (getDepString heap node); destruct ulp;
    rewrite ?Fprintf_Fprintf; reflexivity.
Qed.

Lemma emitStatements_counts (n : NinjaGenerator) (node : DepNode) :
  pending_after O (f n) = O ->
  match emitStatements gomaDir createRunners heap n node with
  | Done n' =>
      done n' = done n /\ pending_after O (f n') = O
      /\ forall o,
           let k := if decide (Output node = o) then 1%nat else O in
           builds_for o (f n') = (builds_for o (f n) + k)%nat
           /\ (rules_for o (f n') <= rules_for o (f n) + k)%nat
  | Panic n' _ =>
      forall o, builds_for o (f n') = builds_for o (f n)
                /\ rules_for o (f n') = rules_for o (f n)
  | OutOfFuel => False
  end.
Proof.
  intros Hp. rewrite emitStatements_eq. unfold rules_for.
  destruct (createRunners node) as [|r rs].
  - destruct (getDepString heap node) as [dep|]; [|done].
    cbn [Fprintf f done]. rewrite pending_after_app.
    split; [done|]. split; [done|]. intros o.
    rewrite builds_for_app, rules_for_go_app, Hp. unfold builds_for. simpl.
    rewrite filter_cons, filter_nil. simpl.
    destruct (decide (Output node = o)) as [->|Hne].
    + rewrite decide_True by done. simpl. lia.
    + rewrite decide_False by congruence. simpl. lia.
  - cbn zeta. unfold genRuleName. cbn [fst snd].
    destruct (getDepfile _) as [depfile [err|]].
    + intros o. cbn [Fprintf f]. rewrite builds_for_app, rules_for_go_app, Hp.
      unfold builds_for. simpl. lia.
    + unfold rule_block.
      destruct (getDepString heap node) as [dep|]; cbn [Fprintf f done].
      * rewrite pending_after_app. split; [done|]. split.
        { rewrite !pending_after_app. simpl. by destruct (snd (genShellScript _ _)). }
        intros o. rewrite builds_for_app, rules_for_go_app, Hp.
        unfold builds_for. rewrite !filter_app, !length_app.
        rewrite !rules_for_go_app.
        destruct (String.eqb depfile ""), (Str.len _ <=? 100000),
          (snd (genShellScript _ _)); simpl;
          rewrite filter_cons, filter_nil; simpl;
          (destruct (decide (Output node = o)) as [->|Hne];
           [rewrite decide_True by done | rewrite decide_False by congruence]);
          simpl; lia.
      * intros o. rewrite builds_for_app, rules_for_go_app, Hp.
        unfold builds_for. rewrite !filter_app, !length_app, !rules_for_go_app.
        destruct (String.eqb depfile ""), (Str.len _ <=? 100000); simpl; lia.
Qed.

Lemma good_mark (n : NinjaGenerator) (o : string) : good n -> good (mark n o).
Proof.
  intros (Hp & Hm & Hz). split; [done|]. split; [done|].
  intros o' Ho'. apply Hz. simpl in Ho'. set_solver.
Qed.

(** The invariant is kept by every visit. *)
Lemma emitNode_good (fuel : nat) :
  forall n p, good n ->
    match emitNode gomaDir createRunners heap fuel n p with
    | Done n' => good n' /\ done n ⊆ done n'
    | Panic n' _ => at_most_once (f n')
    | OutOfFuel => True
    end.
Proof.
  induction fuel as [|fuel IH]; intros n p Hgood; simpl; [done|].
  destruct (heap !! p) as [node|]; [|by destruct Hgood as (_ & ? & _)].
  case_bool_decide as Hdone; [done|].
  pose proof (good_mark n (Output node) Hgood) as Hgood1.
  destruct (_ && _); [split; [done | simpl; set_solver]|].
  pose proof (emitStatements_counts (mark n (Output node)) node (proj1 Hgood1)) as Hc.
  destruct Hgood as (Hp & Hm & Hz). destruct (Hz _ Hdone) as [Hb0 Hr0].
  destruct (emitStatements gomaDir createRunners heap (mark n (Output node)) node) as [n2|n2 err|]; [| |done].
  - destruct Hc as (Hd & Hp2 & Hcount).
    assert (Hgood2 : good n2).
    { split; [done|]. split.
      - intros o. destruct (Hcount o) as [Hb Hr]. simpl in Hb, Hr.
        destruct (Hm o) as [Hb1 Hr1].
        destruct (decide (Output node = o)) as [<-|_]; lia.
      - intros o Ho. rewrite Hd in Ho. simpl in Ho.
        destruct (Hcount o) as [Hb Hr]. simpl in Hb, Hr.
        rewrite decide_False in Hb, Hr by set_solver.
        destruct (Hz o) as [Hb1 Hr1]; [set_solver|]. lia. }
    pose proof (eachNode_inv (emitNode gomaDir createRunners heap fuel) good (fun n' => at_most_once (f n')) True
                  IH (Deps node) n2 Hgood2) as He.
    destruct (eachNode _ n2 (Deps node)); [|done..].
    destruct He as [? Hsub]. split; [done|]. rewrite Hd in Hsub. simpl in Hsub. set_solver.
  - intros o. destruct (Hc o) as [-> ->]. apply Hm.
Qed.

(** A visit of a store with fewer unvisited outputs than fuel ends. *)
Lemma emitNode_fuel (fuel : nat) :
  forall n p, (unvisited heap n < fuel)%nat ->
    match emitNode gomaDir createRunners heap fuel n p with
    | Done n' => (unvisited heap n' < fuel)%nat /\ done n ⊆ done n'
    | Panic _ _ => True
    | OutOfFuel => False
    end.
Proof.
  induction fuel as [|fuel IH]; intros n p Hlt; [lia|]. simpl.
  destruct (heap !! p) as [node|] eqn:Hnode; [|done].
  case_bool_decide as Hdone; [done|].
  assert (Hin : Output node ∈ outputs_of heap).
  { unfold outputs_of. apply elem_of_list_to_set, list_elem_of_fmap.
    exists node. split; [done|]. by eapply list_elem_of_lookup_2. }
  assert (Hless : (unvisited heap (mark n (Output node)) < unvisited heap n)%nat).
  { unfold unvisited. simpl. apply subset_size. set_solver. }
  destruct (_ && _); [split; [lia | simpl; set_solver]|].
  pose proof (emitStatements_eq (mark n (Output node)) node) as Heq.
  assert (Hsame : match emitStatements gomaDir createRunners heap (mark n (Output node)) node with
                  | Done n2 => done n2 = done (mark n (Output node))
                  | Panic _ _ => True
                  | OutOfFuel => False
                  end).
  { rewrite Heq. destruct (createRunners node).
    - by destruct (getDepString heap node).
    - cbn zeta. destruct (getDepfile _) as [? [|]]; [done|].
      by destruct (getDepString heap node). }
  destruct (emitStatements gomaDir createRunners heap (mark n (Output node)) node) as [n2| |]; [|done..].
  assert (Hlt2 : (unvisited heap n2 < fuel)%nat).
  { unfold unvisited in *. rewrite Hsame. lia. }
  pose proof (eachNode_inv (emitNode gomaDir createRunners heap fuel) (fun n => (unvisited heap n < fuel)%nat)
                (fun _ => True) False) as He.
  specialize (He IH (Deps node) n2 Hlt2).
  destruct (eachNode _ n2 (Deps node)); [|done..].
  destruct He as [? Hsub]. split; [lia|]. rewrite Hsame in Hsub. simpl in Hsub. set_solver.
Qed.

Lemma unvisited_le_length (n : NinjaGenerator) : (unvisited heap n <= length heap)%nat.
Proof.
  unfold unvisited, outputs_of.
  transitivity (size (list_to_set (C := gset string) (Output <$> heap))).
  { apply subseteq_size. set_solver. }
  rewrite <- (length_fmap Output heap).
  generalize (Output <$> heap). intros l.
  induction l as [|x l IH]; [by rewrite list_to_set_nil, size_empty|].
  rewrite list_to_set_cons. simpl.
  rewrite size_union_alt, size_singleton.
  assert (size (list_to_set (C := gset string) l ∖ {[x]}) <= size (list_to_set (C := gset string) l))%nat
    by (apply subseteq_size; set_solver).
  lia.
Qed.

(** More fuel does not change the outcome of a visit that ended. *)
Lemma emitNode_more_fuel (fuel : nat) :
  forall n p, emitNode gomaDir createRunners heap fuel n p <> OutOfFuel ->
    emitNode gomaDir createRunners heap (S fuel) n p
    = emitNode gomaDir createRunners heap fuel n p.
Proof.
  induction fuel as [|fuel IH]; intros n p Hne; [done|].
  change (emitNode gomaDir createRunners heap (S (S fuel)) n p)
    with (match heap !! p with
          | None => Panic n nilDeref
          | Some node =>
              if bool_decide (Output node ∈ done n) then Done n
              else
                let n := mark n (Output node) in
                if (length (Cmds node) =? 0)%nat && (length (Deps node) =? 0)%nat
                   && negb (IsPhony node)
                then Done n
                else
                  match emitStatements gomaDir createRunners heap n node with
                  | Done n =>
                      eachNode (emitNode gomaDir createRunners heap (S fuel)) n (Deps node)
                  | o => o
                  end
          end).
  cbn [emitNode] in Hne |- *.
  destruct (heap !! p) as [node|]; [|done].
  destruct (bool_decide _); [done|]. cbn zeta in Hne |- *.
  destruct (_ && _); [done|].
  destruct (emitStatements _ _ _ _ node); [|done..].
  by apply eachNode_ext.
Qed.

Lemma emitNode_fuel_le (fuel fuel' : nat) (n : NinjaGenerator) (p : nat) :
  (fuel <= fuel')%nat ->
  emitNode gomaDir createRunners heap fuel n p <> OutOfFuel ->
  emitNode gomaDir createRunners heap fuel' n p
  = emitNode gomaDir createRunners heap fuel n p.
Proof.
  induction 1 as [|fuel' Hle IH]; intros Hne; [done|].
  rewrite emitNode_more_fuel; [by apply IH|]. by rewrite IH.
Qed.
End Traversal.


Lemma generateNinja_eq (gomaDir : string) (NumCPU : Z)
    (createRunners : DepNode -> list runner) (heap : list DepNode) (fuel : nat)
    (nodes : list nat) :
  generateNinja gomaDir NumCPU createRunners heap fuel nodes
  = eachNode (emitNode gomaDir createRunners heap fuel) (headerState gomaDir NumCPU) nodes.
Proof.
  unfold generateNinja, headerState, newGenerator.
  destruct (String.eqb gomaDir ""); cbn [negb]; by rewrite !Fprintf_Fprintf.
Qed.

Lemma headerState_good (gomaDir : string) (NumCPU : Z) : good (headerState gomaDir NumCPU).
Proof.
  unfold headerState, good, at_most_once, rules_for, builds_for.
  destruct (String.eqb gomaDir ""); simpl; repeat split; intros; lia.
Qed.

(** C1. In the build description the generation entry point writes, no
    output path has more than one build statement or more than one rule
    block, however many nodes refer to it; a visit of a node whose output
    is already marked changes nothing; and the run is the same for every
    amount of fuel above the number of nodes. *)
Theorem emit_at_most_once (gomaDir : string) (NumCPU : Z)
    (createRunners : DepNode -> list runner) (heap : list DepNode) (nodes : list nat) :
  (exists n, final_state (GenerateNinja gomaDir NumCPU createRunners heap nodes) = Some n
             /\ at_most_once (f n))
  /\ (forall fuel n p node,
        heap !! p = Some node -> Output node ∈ done n ->
        emitNode gomaDir createRunners heap (S fuel) n p = Done n)
  /\ (forall fuel, (length heap < fuel)%nat ->
        generateNinja gomaDir NumCPU createRunners heap fuel nodes
        = GenerateNinja gomaDir NumCPU createRunners heap nodes).
Proof.
  split; [|split].
  - unfold GenerateNinja. rewrite generateNinja_eq.
    set (fuel := S (length heap)).
    pose proof (eachNode_inv (emitNode gomaDir createRunners heap fuel) good
                  (fun n' => at_most_once (f n')) True
                  (emitNode_good gomaDir createRunners heap fuel)
                  nodes _ (headerState_good gomaDir NumCPU)) as Hgood.
    pose proof (eachNode_inv (emitNode gomaDir createRunners heap fuel)
                  (fun n => (unvisited heap n < fuel)%nat) (fun _ => True) False
                  (emitNode_fuel gomaDir createRunners heap fuel) nodes
                  (headerState gomaDir NumCPU)) as Hfuel.
    destruct (eachNode _ _ nodes) as [n|n err|].
    + exists n. split; [done|]. by destruct Hgood as [(_ & ? & _) _].
    + by exists n.
    + exfalso. apply Hfuel. unfold fuel.
      pose proof (unvisited_le_length heap (headerState gomaDir NumCPU)). lia.
  - intros fuel n p node Hp Hdone. simpl. rewrite Hp.
    by rewrite bool_decide_eq_true_2.
  - intros fuel Hlt. unfold GenerateNinja. rewrite !generateNinja_eq.
    apply eachNode_pointwise. intros n p.
    apply emitNode_fuel_le; [lia|]. intros Heq.
    pose proof (emitNode_fuel gomaDir createRunners heap (S (length heap)) n p) as Hf.
    pose proof (unvisited_le_length heap n).
    rewrite Heq in Hf. apply Hf. lia.
Qed.

Lemma emit_at_most_once_witness :
  exists n, final_state (GenerateNinja "" 4 plainRunners diamond [0%nat]) = Some n
            /\ at_most_once (f n).
Proof. exact (proj1 (emit_at_most_once "" 4 plainRunners diamond [0%nat])). Defined.

(** C10. [emitNode] ends on every store of nodes, cyclic or not, when given
    more fuel than the store has nodes; and it recurses into the
    dependencies of a node only with the output of that node marked. *)
Theorem emitNode_terminates (gomaDir : string) (createRunners : DepNode -> list runner)
    (heap : list DepNode) :
  (forall fuel n p, (length heap < fuel)%nat ->
     exists n', final_state (emitNode gomaDir createRunners heap fuel n p) = Some n')
  /\ (forall fuel n p node n1,
        heap !! p = Some node -> Output node ∉ done n -> dangling node = false ->
        emitStatements gomaDir createRunners heap (mark n (Output node)) node = Done n1 ->
        Output node ∈ done n1
        /\ emitNode gomaDir createRunners heap (S fuel) n p
           = eachNode (emitNode gomaDir createRunners heap fuel) n1 (Deps node))
  /\ (forall fuel fuel' n p, (length heap < fuel)%nat -> (fuel <= fuel')%nat ->
        emitNode gomaDir createRunners heap fuel' n p
        = emitNode gomaDir createRunners heap fuel n p).
Proof.
  assert (Hends : forall fuel n p, (length heap < fuel)%nat ->
            emitNode gomaDir createRunners heap fuel n p <> OutOfFuel).
  { intros fuel n p Hlt Heq.
    pose proof (emitNode_fuel gomaDir createRunners heap fuel n p) as Hf.
    pose proof (unvisited_le_length heap n).
    rewrite Heq in Hf. apply Hf. lia. }
  split; [|split].
  - intros fuel n p Hlt. specialize (Hends fuel n p Hlt).
    destruct (emitNode _ _ _ fuel n p) as [n'|n' err|]; [by exists n'..|done].
  - intros fuel n p node n1 Hp Hnot Hd Hs. split.
    + pose proof (emitStatements_counts gomaDir createRunners heap
                    (mark n (Output node)) node) as Hc.
      pose proof (emitStatements_eq gomaDir createRunners heap
                    (mark n (Output node)) node) as Heq.
      rewrite Hs in Heq.
      destruct (createRunners node).
      * destruct (getDepString heap node); [|done]. injection Heq as ->. simpl. set_solver.
      * cbn zeta in Heq. destruct (getDepfile _) as [? [|]]; [done|].
        destruct (getDepString heap node); [|done]. injection Heq as ->. simpl. set_solver.
    + simpl. rewrite Hp, bool_decide_eq_false_2 by done.
      unfold dangling in Hd. rewrite Hd. by rewrite Hs.
  - intros fuel fuel' n p Hlt Hle. apply emitNode_fuel_le; [done | by apply Hends].
Qed.

Lemma emitNode_terminates_witness :
  (length cycle < 3)%nat
  /\ exists n', final_state (emitNode "" plainRunners cycle 3
                               {| f := []; ruleId := 0; done := ∅ |} 0) = Some n'.
Proof.
  assert (H : (length cycle < 3)%nat) by (simpl; lia).
  split; [exact H|].
  exact (proj1 (emitNode_terminates "" plainRunners cycle) 3%nat _ 0%nat H).
Defined.

(** C7 (as amended). For a node with commands whose depfile resolves, the
    rule block carries the chain text as its command when the text has at
    most 100,000 bytes ([len(ss)] of line 233 counts bytes); when it has
    more, one byte over sufficing, the block carries [rspfile = $out.rsp],
    the whole chain text as [rspfile_content], and [sh $out.rsp] as its
    command. *)
Theorem emitStatements_rspfile (gomaDir : string) (createRunners : DepNode -> list runner)
    (heap : list DepNode) (n : NinjaGenerator) (node : DepNode) (depfile dep : string) :
  let ss := fst (genShellScript gomaDir (createRunners node)) in
  let ruleName := "rule" +:+ pretty (ruleId n) in
  let head := [LRule ruleName; LDescription]
              ++ (if String.eqb depfile "" then [] else [LDepfile depfile]) in
  let tail := [LBuild (Output node) ruleName dep]
              ++ (if snd (genShellScript gomaDir (createRunners node))
                  then [LPool] else []) in
  createRunners node <> [] ->
  getDepfile ss = (depfile, None) ->
  getDepString heap node = Some dep ->
  exists n', emitStatements gomaDir createRunners heap n node = Done n'
    /\ (Str.len ss <= 100000 -> f n' = f n ++ head ++ [LCommand ss] ++ tail)
    /\ (100000 < Str.len ss ->
        f n' = f n ++ head
                   ++ [LRspfile; LRspfileContent ss; LCommand "sh $out.rsp"] ++ tail).
Proof.
  intros ss ruleName head tail Hr Hd Hdep.
  rewrite emitStatements_eq.
  destruct (createRunners node) as [|r rs] eqn:Hrs; [done|]. cbn zeta.
  fold ss. rewrite Hd, Hdep. eexists. split; [reflexivity|].
  cbn [Fprintf f genRuleName fst snd]. unfold rule_block.
  fold ruleName. split; intros Hlen.
  - rewrite (proj2 (Z.leb_le _ _) Hlen). unfold head, tail. by rewrite <- !app_assoc.
  - rewrite (proj2 (Z.leb_gt _ _) Hlen). unfold head, tail. by rewrite <- !app_assoc.
Qed.

Lemma emitStatements_rspfile_witness :
  (exists n', emitStatements "" plainRunners diamond (headerState "" 4)
                {| Output := "d"; Cmds := ["gen"]; Deps := []; IsOrderOnly := false;
                   IsPhony := false |} = Done n'
     /\ f n' = [LHeader; LBlank; LRule "rule0"; LDescription; LCommand "gen";
                LBuild "d" "rule0" ""])
  /\ (exists n', emitStatements "" (oneRunner (copies "a" 100001)) [] (headerState "" 1)
                   lone = Done n'
        /\ f n' = [LHeader; LBlank; LRule "rule0"; LDescription; LRspfile;
                   LRspfileContent
                     (fst (genShellScript "" (oneRunner (copies "a" 100001) lone)));
                   LCommand "sh $out.rsp"; LBuild "o" "rule0" ""]).
Proof.
  split.
  - assert (H1 : plainRunners {| Output := "d"; Cmds := ["gen"]; Deps := [];
                                 IsOrderOnly := false; IsPhony := false |} <> [])
      by discriminate.
    assert (H2 : Str.len "gen" <= 100000) by (vm_compute; discriminate).
    destruct (emitStatements_rspfile "" plainRunners diamond (headerState "" 4) _ "" ""
                H1 eq_refl eq_refl) as (n' & He & Hin & _).
    exists n'. split; [exact He | exact (Hin H2)].
  - assert (H1 : oneRunner (copies "a" 100001) lone <> []) by discriminate.
    assert (H2 : getDepfile (fst (genShellScript "" (oneRunner (copies "a" 100001) lone)))
                 = ("", None)) by (vm_compute; reflexivity).
    assert (H3 : 100000 < Str.len (fst (genShellScript ""
                                          (oneRunner (copies "a" 100001) lone))))
      by (vm_compute; reflexivity).
    destruct (emitStatements_rspfile "" (oneRunner (copies "a" 100001)) []
                (headerState "" 1) lone "" "" H1 H2 eq_refl) as (n' & He & _ & Hsp).
    exists n'. split; [exact He | exact (Hsp H3)].
Defined.

(** C7, as the specification words it, fails on a text of more than 100,000
    bytes in at most 100,000 characters: a command of 50,001 letters of two
    bytes each is not written as the command of the rule, it goes to the
    response file. *)
Lemma emitStatements_characters_counterexample :
  ~ spills_by_characters "" (oneRunner (copies e_acute 50001)) [] (headerState "" 1) lone
  /\ utf8_count (fst (genShellScript "" (oneRunner (copies e_acute 50001) lone))) = 50001
  /\ Str.len (fst (genShellScript "" (oneRunner (copies e_acute 50001) lone))) = 100002
  /\ has_rspfile (emitStatements "" (oneRunner (copies e_acute 50001)) []
                    (headerState "" 1) lone) = true.
Proof.
  assert (Hc : utf8_count (fst (genShellScript ""
                                  (oneRunner (copies e_acute 50001) lone))) = 50001)
    by (vm_compute; reflexivity).
  assert (Hr : has_rspfile (emitStatements "" (oneRunner (copies e_acute 50001)) []
                              (headerState "" 1) lone) = true)
    by (vm_compute; reflexivity).
  split; [|split; [exact Hc | split; [vm_compute; reflexivity | exact Hr]]].
  intros H. unfold spills_by_characters in H.
  destruct (H ltac:(discriminate)) as [Hin _].
  rewrite Hc, Hr in Hin. discriminate Hin. lia.
Qed.

(** C5 (as amended). A flag is present when it stands between two blanks of
    the command, the end of the command counting as a blank for [-MD] and
    [-MMD] only, and it occurs a second time when it stands between two
    blanks of the text that starts with the argument of its first
    occurrence.  With dependency tracking requested and no llvm-rs-cc in the
    command, the resolver fails exactly when [-MF] occurs a second time,
    when there is neither [-MF] nor [-o], or when [-o] occurs a second time
    without [-MF]; the error of a node makes [emitNode] panic, and a panic
    ends every loop over nodes, that of the entry point included. *)
Theorem getDepfile_errors_abort :
  (forall ss, is_llvm_rs_cc ss = false -> tracking_requested ss = true ->
     (snd (getDepfile ss) <> None <-> ambiguous_or_missing ss)
     /\ (flag_present "-MF" ss = true -> repeated "-MF" ss = true ->
         getDepfile ss = ("", Some ("Multiple output file candidates in " +:+ ss)))
     /\ (flag_present "-MF" ss = false -> flag_present "-o" ss = false ->
         getDepfile ss = ("", Some ("Cannot find the depfile in " +:+ ss)))
     /\ (flag_present "-MF" ss = false -> flag_present "-o" ss = true ->
         repeated "-o" ss = true ->
         getDepfile ss = ("", Some ("Multiple output file candidates in " +:+ ss))))
  /\ (forall gomaDir createRunners heap fuel n p node err,
        heap !! p = Some node -> Output node ∉ done n -> dangling node = false ->
        createRunners node <> [] ->
        snd (getDepfile (fst (genShellScript gomaDir (createRunners node)))) = Some err ->
        exists n', emitNode gomaDir createRunners heap (S fuel) n p = Panic n' err)
  /\ (forall gomaDir createRunners heap fuel n p node n1 n2 err,
        heap !! p = Some node -> Output node ∉ done n -> dangling node = false ->
        emitStatements gomaDir createRunners heap (mark n (Output node)) node = Done n1 ->
        eachNode (emitNode gomaDir createRunners heap fuel) n1 (Deps node) = Panic n2 err ->
        emitNode gomaDir createRunners heap (S fuel) n p = Panic n2 err)
  /\ (forall gomaDir NumCPU createRunners heap fuel pre p post n1 n2 err,
        eachNode (emitNode gomaDir createRunners heap fuel) (headerState gomaDir NumCPU) pre
        = Done n1 ->
        emitNode gomaDir createRunners heap fuel n1 p = Panic n2 err ->
        generateNinja gomaDir NumCPU createRunners heap fuel (pre ++ p :: post)
        = Panic n2 err).
Proof.
  split; [exact getDepfile_error_iff|]. split; [|split].
  - intros gomaDir createRunners heap fuel n p node err Hp Hnot Hd Hr Herr.
    simpl. rewrite Hp, bool_decide_eq_false_2 by done.
    unfold dangling in Hd. rewrite Hd.
    rewrite emitStatements_eq.
    destruct (createRunners node) as [|r rs]; [done|]. cbn zeta.
    destruct (getDepfile _) as [d e]. simpl in Herr. subst e. by eexists.
  - intros gomaDir createRunners heap fuel n p node n1 n2 err Hp Hnot Hd Hs He.
    simpl. rewrite Hp, bool_decide_eq_false_2 by done.
    unfold dangling in Hd. by rewrite Hd, Hs.
  - intros. rewrite generateNinja_eq. by eapply eachNode_panic.
Qed.

Lemma getDepfile_errors_abort_witness :
  is_llvm_rs_cc "cc -MD -MF a.d -MF b.d" = false
  /\ tracking_requested "cc -MD -MF a.d -MF b.d" = true
  /\ getDepfile "cc -MD -MF a.d -MF b.d"
     = ("", Some "Multiple output file candidates in cc -MD -MF a.d -MF b.d").
Proof.
  split; [reflexivity|]. split; [reflexivity|].
  exact (proj1 (proj2 (proj1 getDepfile_errors_abort "cc -MD -MF a.d -MF b.d"
                         eq_refl eq_refl)) eq_refl eq_refl).
Defined.

(** C5, as the specification words it, fails when the second [-MF] ends the
    command: the resolver takes the argument of the first and returns no
    error. *)
Lemma getDepfile_errors_counterexample :
  ~ errors_as_worded "cc -MD -MF a.d -MF"
  /\ getDepfile "cc -MD -MF a.d -MF" = ("a.d", None).
Proof.
  split; [|reflexivity].
  intros H. unfold errors_as_worded in H.
  assert (H1 : (0 < occurrences "-MD" "cc -MD -MF a.d -MF")%nat)
    by (vm_compute; lia).
  assert (H2 : (2 <= occurrences "-MF" "cc -MD -MF a.d -MF")%nat)
    by (vm_compute; lia).
  destruct (H eq_refl (or_introl H1)) as [_ Herr].
  apply (Herr (or_introl H2)). reflexivity.
Qed.

(** ** Runs on the sample stores *)

(** The diamond: [d] is reached through [b] and through [c], and is written
    once. *)
Example diamond_run :
  (f <$> final_state (GenerateNinja "" 4 plainRunners diamond [0%nat]))
  = Some [ LHeader; LBlank;
           LRule "rule0"; LDescription; LCommand "ld"; LBuild "a" "rule0" " b c";
           LRule "rule1"; LDescription; LCommand "cc b"; LBuild "b" "rule1" " d";
           LRule "rule2"; LDescription; LCommand "gen"; LBuild "d" "rule2" "";
           LRule "rule3"; LDescription; LCommand "cc c"; LBuild "c" "rule3" " d" ].
Proof. vm_compute. reflexivity. Qed.

(** The cycle: the visit of [y] finds [x] marked and returns. *)
Example cycle_run :
  (f <$> final_state (GenerateNinja "" 4 plainRunners cycle [0%nat]))
  = Some [ LHeader; LBlank;
           LRule "rule0"; LDescription; LCommand "mk x"; LBuild "x" "rule0" " y";
           LRule "rule1"; LDescription; LCommand "mk y"; LBuild "y" "rule1" " x" ].
Proof. vm_compute. reflexivity. Qed.

(** The text of a build statement as it stands in build.ninja. *)
Example render_build :
  render (LBuild "out/a.o" "rule7" " a.c || gen")
  = "build out/a.o: rule7 a.c || gen" +:+ NL.
Proof. reflexivity. Qed.

(** A flag that stands where the argument of the first one is expected is
    that argument, not a further occurrence. *)
Example getDepfile_flag_as_argument :
  repeated "-MF" "cc -MD -MF -MF x" = false
  /\ getDepfile "cc -MD -MF -MF x" = ("-MF", None).
Proof. split; reflexivity. Qed.

(** The third example of the specification for the resolver: two [-MF]
    flags with their arguments are an error. *)
Example getDepfile_two_MF :
  getDepfile "gcc -c foo.c -o foo.o -MD -MF a.d -MF b.d"
  = ("", Some "Multiple output file candidates in gcc -c foo.c -o foo.o -MD -MF a.d -MF b.d").
Proof. reflexivity. Qed.

(** The two chains of the specification's joining example. *)
Example chain_tolerant_first :
  genShellScript "" [ {| cmd := "rm x"; ignoreError := true |};
                      {| cmd := "touch x"; ignoreError := false |} ]
  = ("(rm x) ; (touch x)", false).
Proof. reflexivity. Qed.

Example chain_tolerant_last :
  genShellScript "" [ {| cmd := "touch x"; ignoreError := false |};
                      {| cmd := "rm y"; ignoreError := true |} ]
  = ("(touch x) && (rm y ; true)", false).
Proof. reflexivity. Qed.

(** With the accelerator configured, an in-tree compiler call is handed to
    gomacc and the chain does not ask for the local pool. *)
Example chain_gomacc :
  genShellScript "/goma"
    [ {| cmd := "prebuilts/gcc/linux-x86/bin/arm-gcc -O2 -c a.c"; ignoreError := false |} ]
  = ("/goma/gomacc prebuilts/gcc/linux-x86/bin/arm-gcc -O2 -c a.c", false).
Proof. reflexivity. Qed.

(** ** Further properties of comment stripping *)

Lemma prefix_take (k : nat) (s : string) : String.prefix (Str.take k s) s = true.
Proof.
  revert k. induction s as [|c s IH]; intros [|k]; simpl; try done.
  destruct (ascii_dec c c); [apply IH | done].
Qed.

(** The loop keeps a prefix of the text it scans, and scanning that prefix
    again from the same state never meets a comment. *)
Lemma stripLoop_kept (rest : string) :
  forall pre escape quote,
    exists k,
      stripLoop (pre +:+ rest) escape quote (Str.len pre) rest = pre +:+ Str.take k rest
      /\ forall s0 i0, stripLoop s0 escape quote i0 (Str.take k rest) = s0.
Proof.
  induction rest as [|c rest IH]; intros pre escape quote.
  - exists O. cbn [stripLoop Str.take]. done.
  - cbn [stripLoop]. destruct (stripStep escape quote c) as [[e' q']|] eqn:Hstep.
    + destruct (IH (pre +:+ Str.of_byte c) e' q') as (k & Hk & Hagain).
      exists (S k). rewrite append_snoc in Hk.
      replace (Str.len (pre +:+ Str.of_byte c)) with (Str.len pre + 1) in Hk
        by (unfold Str.len; rewrite length_append; simpl; lia).
      split; [by rewrite Hk, append_snoc|].
      intros s0 i0. cbn [Str.take stripLoop]. rewrite Hstep. apply Hagain.
    + exists O. split; [|done]. unfold Str.slice_to, Str.len. rewrite Nat2Z.id.
      replace (String.length pre) with (String.length pre + 0)%nat by lia.
      by rewrite take_append.
Qed.

Lemma stripShellComment_kept (s : string) :
  exists k, stripShellComment s = Str.take k s
            /\ stripShellComment (Str.take k s) = Str.take k s.
Proof.
  unfold stripShellComment at 1.
  destruct (Str.IndexByte s "#"%char <? 0) eqn:Hfast.
  - exists (String.length s). rewrite take_all. split; [done|].
    unfold stripShellComment. by rewrite Hfast.
  - destruct (stripLoop_kept s "" false zero) as (k & Hk & Hagain).
    exists k. split; [exact Hk|].
    unfold stripShellComment.
    destruct (Str.IndexByte (Str.take k s) "#"%char <? 0); [done | apply Hagain].
Qed.

(** X1. What [stripShellComment] returns is a prefix of its argument: it
    only ever cuts the text, it never changes or adds a byte. *)
Theorem stripShellComment_prefix (s : string) :
  String.prefix (stripShellComment s) s = true
  /\ (String.length (stripShellComment s) <= String.length s)%nat.
Proof.
  destruct (stripShellComment_kept s) as (k & -> & _). split; [apply prefix_take|].
  revert k. induction s as [|c s IH]; intros [|k]; simpl; try lia.
  specialize (IH k). lia.
Qed.

(** X2. Stripping is idempotent: a stripped text holds no comment any
    more, and stripping it again returns it as it is. *)
Theorem stripShellComment_idempotent (s : string) :
  stripShellComment (stripShellComment s) = stripShellComment s.
Proof. by destruct (stripShellComment_kept s) as (k & -> & ->). Qed.

(** ** Further properties of the command chain *)

Lemma append_empty (a b : string) : a +:+ b = "" -> a = "" /\ b = "".
Proof. destruct a; simpl; [done | discriminate]. Qed.

Lemma mem_append (c : ascii) (a b : string) :
  Str.mem c (a +:+ b) = Str.mem c a || Str.mem c b.
Proof. induction a as [|d a IH]; simpl; [done|]. by rewrite IH, orb_assoc. Qed.

Lemma prefix_nil (s : string) : String.prefix "" s = true.
Proof. by destruct s. Qed.

Lemma prefix_byte (c d : ascii) (s : string) :
  String.prefix (Str.of_byte c) (String d s) = if ascii_dec c d then true else false.
Proof. unfold Str.of_byte. simpl. destruct (ascii_dec c d); [apply prefix_nil | done]. Qed.

Lemma replace_byte_mem (c : ascii) (new s : string) :
  Str.mem c new = false -> Str.mem c (Str.Replace s (Str.of_byte c) new) = false.
Proof.
  intros Hnew. unfold Str.Replace. induction s as [|d s IH]; [done|].
  cbn [Str.replace_go]. rewrite prefix_byte.
  destruct (ascii_dec c d) as [->|Hne].
  - change (String.length (Str.of_byte d) - 1)%nat with O.
    by rewrite mem_append, Hnew, IH.
  - cbn [Str.mem]. by rewrite IH, (proj2 (Ascii.eqb_neq c d) Hne).
Qed.

(** The command text with the accelerator is the command text without it,
    with the gomacc call in front when the pattern matches. *)
Lemma commandText_eq (gomaDir : string) (r : runner) :
  commandText gomaDir r =
    let c := fst (commandText "" r) in
    if negb (String.eqb gomaDir "") && ccRe_MatchString c
    then (gomaDir +:+ "/gomacc " +:+ c, true)
    else (c, false).
Proof. reflexivity. Qed.

Lemma commandText_plain_nonempty (r : runner) : fst (commandText "" r) <> "".
Proof.
  unfold commandText. cbn [String.eqb negb andb fst].
  match goal with
  | |- context [String.eqb ?x ""] => destruct (String.eqb_spec x "")
  end; done.
Qed.

Lemma commandText_plain_no_tab (r : runner) :
  Str.mem Str.TAB (fst (commandText "" r)) = false.
Proof.
  unfold commandText. cbn [String.eqb negb andb fst].
  match goal with
  | |- context [String.eqb ?x ""] => destruct (String.eqb x "")
  end; [done|]. by apply replace_byte_mem.
Qed.

(** X3. The command text of a runner is never empty, so that [cmd[0]] in
    [genShellScript] is always within bounds; and a chain of at least one
    command is not empty either. *)
Theorem commandText_nonempty (gomaDir : string) :
  (forall r, exists ch, String.get 0 (fst (commandText gomaDir r)) = Some ch)
  /\ (forall runners, runners <> [] -> fst (genShellScript gomaDir runners) <> "").
Proof.
  assert (Hne : forall r, fst (commandText gomaDir r) <> "").
  { intros r. rewrite commandText_eq. cbn zeta.
    pose proof (commandText_plain_nonempty r).
    destruct (_ && _); cbn [fst]; [|done].
    intros [_ [[=] _]%append_empty]%append_empty. }
  split.
  - intros r. specialize (Hne r). destruct (fst (commandText gomaDir r)) as [|ch t]; [done|].
    by exists ch.
  - intros [|r rest] Hr; [done|].
    rewrite (genShellScript_joined gomaDir (r :: rest)
               (fun i t => if begins_with_paren t then false
                           else (0 <? i)%nat || (1 <? length (r :: rest))%nat))
      by done.
    cbn [joined]. unfold unit_at. specialize (Hne r).
    intros Heq. apply append_empty in Heq as [Heq _].
    destruct (if begins_with_paren _ then _ else _);
      [discriminate Heq | by apply append_empty in Heq as [? _]].
Qed.

(** X4. When the accelerator directory holds no tab, the command text of a
    runner holds none: every tab of the recipe line has become a blank. *)
Theorem commandText_no_tab (gomaDir : string) (r : runner) :
  Str.mem Str.TAB gomaDir = false ->
  Str.mem Str.TAB (fst (commandText gomaDir r)) = false.
Proof.
  intros Hg. rewrite commandText_eq. cbn zeta.
  pose proof (commandText_plain_no_tab r) as Hc.
  destruct (_ && _); cbn [fst]; [|done].
  by rewrite !mem_append, Hg, Hc.
Qed.

Lemma commandText_no_tab_witness :
  Str.mem Str.TAB
    (fst (commandText "/opt/goma"
            {| cmd := String Str.TAB "prebuilts/gcc/bin/gcc -O2 -c a.c"; ignoreError := false |}))
  = false.
Proof. exact (commandText_no_tab "/opt/goma" _ eq_refl). Defined.


Lemma prefix_append_l (a b s : string) :
  String.prefix (a +:+ b) s = true -> String.prefix a s = true.
Proof.
  revert s. induction a as [|c a IH]; intros s; [intros _; apply prefix_nil|].
  destruct s as [|d s]; simpl; [done|]. destruct (ascii_dec c d); [apply IH | done].
Qed.

Lemma prefix_drop_Contains (p s : string) (i : nat) :
  String.prefix p (Str.drop i s) = true -> Str.Contains s p = true.
Proof.
  rewrite Contains_find. revert i. induction s as [|c s IH]; intros i H; rewrite find_sub_eq.
  - replace (Str.drop i "") with "" in H by (by destruct i). by rewrite H.
  - destruct (String.prefix p (String c s)) eqn:Hp; [done|].
    destruct i as [|i]; [cbn [Str.drop] in H; congruence|]. cbn [Str.drop] in H.
    specialize (IH i H). by destruct (Str.find_sub p s).
Qed.

Lemma dot_star_drop (k : string -> bool) (s : string) :
  dot_star k s = true -> exists i, k (Str.drop i s) = true.
Proof.
  induction s as [|c s IH]; simpl; intros H.
  - exists O. by rewrite orb_false_r in H.
  - apply orb_true_iff in H as [H|H]; [by exists O|].
    apply andb_true_iff in H as [_ H]. destruct (IH H) as [i Hi]. by exists (S i).
Qed.

Lemma strip_prefix_Some (p s t : string) :
  strip_prefix p s = Some t ->
  String.prefix p s = true /\ t = Str.drop (String.length p) s.
Proof. unfold strip_prefix. destruct (String.prefix p s); [by intros [= <-] | done]. Qed.

(** What a match of the compiler pattern says about the text. *)
Lemma ccRe_MatchString_inv (s : string) :
  ccRe_MatchString s = true ->
  String.prefix "prebuilts/gcc/" s || String.prefix "prebuilts/clang/" s = true
  /\ Str.Contains s " -c " = true.
Proof.
  unfold ccRe_MatchString. cbn [existsb]. rewrite orb_false_r.
  assert (Hone : forall d,
            match strip_prefix ("prebuilts/" +:+ d +:+ "/") s with
            | Some t => dot_star ccRe_compiler t
            | None => false
            end = true ->
            String.prefix ("prebuilts/" +:+ d +:+ "/") s = true
            /\ Str.Contains s " -c " = true).
  { intros d H.
    destruct (strip_prefix _ s) as [t|] eqn:Ht; [|done].
    apply strip_prefix_Some in Ht as [Hp ->]. split; [done|].
    apply dot_star_drop in H as [i Hi]. unfold ccRe_compiler in Hi.
    apply existsb_exists in Hi as (cc & _ & Hcc).
    destruct (strip_prefix _ _) as [u|] eqn:Hu; [|done].
    apply strip_prefix_Some in Hu as [_ ->].
    apply dot_star_drop in Hcc as [j Hj].
    rewrite <- !drop_add in Hj. by eapply prefix_drop_Contains. }
  intros [H|H]%orb_true_iff; apply Hone in H as [Hp Hc]; (split; [|done]).
  - change ("prebuilts/" +:+ "gcc" +:+ "/") with "prebuilts/gcc/" in Hp. by rewrite Hp.
  - change ("prebuilts/" +:+ "clang" +:+ "/") with "prebuilts/clang/" in Hp.
    rewrite Hp. by rewrite orb_true_r.
Qed.

(** X5. The accelerator only ever goes in front of a command: when gomacc
    is used, the accelerator is configured, the text is the gomacc call
    followed by the command text built without accelerator, and that text
    starts with [prebuilts/gcc/] or [prebuilts/clang/] and holds [ -c ]. *)
Theorem commandText_gomacc (gomaDir : string) (r : runner) :
  snd (commandText gomaDir r) = true ->
  gomaDir <> ""
  /\ fst (commandText gomaDir r) = gomaDir +:+ "/gomacc " +:+ fst (commandText "" r)
  /\ String.prefix "prebuilts/gcc/" (fst (commandText "" r))
     || String.prefix "prebuilts/clang/" (fst (commandText "" r)) = true
  /\ Str.Contains (fst (commandText "" r)) " -c " = true.
Proof.
  rewrite commandText_eq. cbn zeta.
  destruct (negb (String.eqb gomaDir "")) eqn:Hg; cbn [andb]; [|done].
  destruct (ccRe_MatchString _) eqn:Hm; cbn [fst snd]; [intros _|done].
  split; [|split; [done | by apply ccRe_MatchString_inv]].
  intros ->. done.
Qed.

Lemma commandText_gomacc_witness :
  fst (commandText "/g" {| cmd := "prebuilts/clang/bin/clang++ -O2 -c a.cc";
                           ignoreError := false |})
  = "/g/gomacc prebuilts/clang/bin/clang++ -O2 -c a.cc".
Proof.
  exact (proj1 (proj2 (commandText_gomacc "/g"
                         {| cmd := "prebuilts/clang/bin/clang++ -O2 -c a.cc";
                            ignoreError := false |} eq_refl))).
Defined.

Lemma genShellScript_loop_used (gomaDir : string) (runners rest : list runner) :
  forall buf used i,
    snd (genShellScript_loop gomaDir runners (buf, used) i rest)
    = used || existsb (fun r => snd (commandText gomaDir r)) rest.
Proof.
  induction rest as [|r rest IH]; intros buf used i; cbn [genShellScript_loop existsb snd].
  - by rewrite orb_false_r.
  - unfold genShellScript_body at 1.
    destruct (commandText gomaDir r) as [c u]. cbn [snd].
    match goal with
    | |- context [genShellScript_loop _ _ (?b, ?x) _ _] => rewrite (IH b x)
    end.
    destruct u, used; reflexivity.
Qed.

(** X6. The second result of [genShellScript], which binds the build
    statement to the local pool, is true exactly when the accelerator is
    configured and gomacc is used for no command of the chain. *)
Theorem genShellScript_pool_flag (gomaDir : string) (runners : list runner) :
  snd (genShellScript gomaDir runners)
  = negb (String.eqb gomaDir "")
    && negb (existsb (fun r => snd (commandText gomaDir r)) runners).
Proof.
  unfold genShellScript.
  pose proof (genShellScript_loop_used gomaDir runners runners "" false O) as H.
  destruct (genShellScript_loop gomaDir runners ("", false) 0 runners) as [buf used].
  cbn [snd] in *. by rewrite H.
Qed.

(** ** Further properties of the depfile resolver *)

Lemma find_byte_take (p : ascii -> bool) (s : string) (k : nat) :
  (forall j, Str.find_byte p s = Some j -> (k <= j)%nat) ->
  Str.find_byte p (Str.take k s) = None.
Proof.
  revert k. induction s as [|c s IH]; intros [|k] H; simpl; try done.
  simpl in H. destruct (p c); [specialize (H O eq_refl); lia|].
  rewrite IH; [done|]. intros j Hj. specialize (H (S j)). rewrite Hj in H.
  specialize (H eq_refl). lia.
Qed.

Lemma find_byte_append (p : ascii -> bool) (a b : string) :
  Str.find_byte p a = None -> Str.find_byte p b = None ->
  Str.find_byte p (a +:+ b) = None.
Proof.
  induction a as [|c a IH]; simpl; [done|]. destruct (p c); [done|].
  destruct (Str.find_byte p a); [done|]. intros _ Hb. by rewrite IH.
Qed.

Lemma no_blank_take (s : string) (k : nat) : no_blank s -> no_blank (Str.take k s).
Proof. unfold no_blank. intros H. apply find_byte_take. by rewrite H. Qed.

Lemma no_blank_first_token (s : string) : no_blank (first_token s).
Proof.
  unfold no_blank, first_token.
  destruct (Str.find_byte _ s) as [i|] eqn:Hi; [|done].
  apply find_byte_take. intros j. rewrite Hi. intros [= ->]. done.
Qed.

Lemma no_blank_stripExt (s : string) : no_blank s -> no_blank (stripExt s).
Proof. apply no_blank_take. Qed.

Lemma getDepfileImpl_no_blank (ss : string) : no_blank (fst (getDepfileImpl ss)).
Proof.
  rewrite getDepfileImpl_cases.
  repeat match goal with
    | |- context [if ?b then _ else _] => destruct b
    end; cbn [fst]; try done.
  - apply no_blank_first_token.
  - apply find_byte_append; [|done]. apply no_blank_stripExt, no_blank_first_token.
Qed.

(** X7. The resolver never answers a path together with an error, and the
    path it answers holds no blank, tab or line feed. *)
Theorem getDepfile_result_shape (ss : string) :
  (fst (getDepfile ss) = "" \/ snd (getDepfile ss) = None)
  /\ no_blank (fst (getDepfile ss))
  /\ Str.IndexAny (fst (getDepfile ss)) blanks = -1.
Proof.
  assert (Hshape : (fst (getDepfile ss) = "" \/ snd (getDepfile ss) = None)
                   /\ no_blank (fst (getDepfile ss))).
  { rewrite getDepfile_cases.
    pose proof (getDepfileImpl_no_blank ss) as Hnb.
    assert (Herr : forall e, snd (getDepfileImpl ss) = Some e -> fst (getDepfileImpl ss) = "").
    { rewrite getDepfileImpl_cases. intros e.
      repeat match goal with
        | |- context [if ?b then _ else _] => destruct b
        end; cbn [fst snd]; done. }
    destruct (is_llvm_rs_cc ss); [by split; [left|]|].
    destruct (getDepfileImpl ss) as [r [e|]]; cbn [fst snd] in *.
    - rewrite (Herr e eq_refl). by split; [left|].
    - destruct (String.eqb r ""); [by split; [left|]|].
      destruct (Str.Contains ss (P_variant r)); cbn [fst snd].
      + split; [by right|]. apply find_byte_append; [|done]. by apply no_blank_stripExt.
      + destruct (Str.Contains ss (assembly_source r)); by split; [right|]. }
  destruct Hshape as [H1 H2]. split; [done|]. split; [done|].
  unfold Str.IndexAny. by rewrite H2.
Qed.

(** ** Further properties of the dependency text *)

(** X8. [getDepString] fails exactly when a pointer of the node is nil,
    that is, lies outside the store; and the text it builds is empty exactly
    when the node has no dependency. *)
Theorem getDepString_edges (heap : list DepNode) (node : DepNode) :
  (getDepString heap node = None
   <-> exists p, p ∈ Deps node /\ (length heap <= p)%nat)
  /\ (getDepString heap node = Some "" <-> Deps node = []).
Proof.
  unfold getDepString. split.
  - destruct (mapM _ (Deps node)) as [ds|] eqn:Hm; cbn [mbind option_bind].
    + split; [done|]. intros (p & Hp & Hlen).
      apply mapM_Some in Hm.
      destruct (proj1 (list_elem_of_lookup _ _) Hp) as [i Hi].
      destruct (Forall2_lookup_l _ _ _ _ _ Hm Hi) as (d & _ & Hd).
      apply lookup_ge_None in Hlen. congruence.
    + split; [intros _|done]. apply mapM_None, Exists_exists in Hm as (p & Hp & Hnone).
      exists p. split; [done|]. by apply lookup_ge_None.
  - destruct (mapM _ (Deps node)) as [ds|] eqn:Hm; cbn [mbind option_bind].
    + apply length_mapM in Hm.
      pose proof (filter_app_complement (fun d => IsOrderOnly d = false) ds) as Hperm.
      apply Permutation_length in Hperm. rewrite length_app in Hperm.
      assert (Heq : filter (fun d => ¬ IsOrderOnly d = false) ds
                    = filter (fun d => IsOrderOnly d = true) ds).
      { apply list_filter_iff. intros d. by destruct (IsOrderOnly d). }
      rewrite Heq in Hperm. rewrite !length_fmap.
      destruct (length (filter (fun d => IsOrderOnly d = false) ds)) eqn:H1,
               (length (filter (fun d => IsOrderOnly d = true) ds)) eqn:H2;
        simpl; (split; [intros [=] || intros _ | intros Hd]);
        try (destruct (Deps node); simpl in *; [done | lia]);
        try (rewrite Hd in Hm; simpl in Hm; lia).
    + split; [done|]. intros Hd. by rewrite Hd in Hm.
Qed.

(** ** Invariants of a whole run *)

Lemma eachNode_keeps (visit : NinjaGenerator -> nat -> outcome)
    (I Q : NinjaGenerator -> Prop) (F : Prop) :
  (forall n p, I n ->
     match visit n p with
     | Done n' => I n'
     | Panic n' _ => Q n'
     | OutOfFuel => F
     end) ->
  forall ps n, I n ->
    match eachNode visit n ps with
    | Done n' => I n'
    | Panic n' _ => Q n'
    | OutOfFuel => F
    end.
Proof.
  intros Hv ps. induction ps as [|p ps IH]; intros n Hn; simpl; [done|].
  specialize (Hv n p Hn). destruct (visit n p); [by apply IH | done..].
Qed.

Section Invariants.

Variable gomaDir : string.
Variable NumCPU : Z.
Variable createRunners : DepNode -> list runner.
Variable heap : list DepNode.

(** [I] holds between visits, [Q] of what a panic leaves behind. *)
Variables I Q : NinjaGenerator -> Prop.

Hypothesis nil_panic : forall n, I n -> Q n.
Hypothesis mark_dangling : forall n p node,
  heap !! p = Some node -> Output node ∉ done n -> dangling node = true ->
  I n -> I (mark n (Output node)).
Hypothesis mark_emit : forall n p node,
  heap !! p = Some node -> Output node ∉ done n -> dangling node = false ->
  I n ->
  match emitStatements gomaDir createRunners heap (mark n (Output node)) node with
  | Done n2 => I n2
  | Panic n2 _ => Q n2
  | OutOfFuel => True
  end.

Lemma emitNode_keeps (fuel : nat) :
  forall n p, I n ->
    match emitNode gomaDir createRunners heap fuel n p with
    | Done n' => I n'
    | Panic n' _ => Q n'
    | OutOfFuel => True
    end.
Proof.
  induction fuel as [|fuel IH]; intros n p Hn; simpl; [done|].
  destruct (heap !! p) as [node|] eqn:Hp; [|by apply nil_panic].
  case_bool_decide as Hdone; [done|].
  pose proof (mark_dangling n p node Hp Hdone) as Hd.
  pose proof (mark_emit n p node Hp Hdone) as He.
  unfold dangling in Hd, He. destruct (_ && _); [by apply Hd|].
  specialize (He eq_refl Hn).
  destruct (emitStatements _ _ _ _ node) as [n2| |]; [|done..].
  by apply (eachNode_keeps _ I Q True IH).
Qed.

(** The run ends, and leaves a state the invariant describes. *)
Lemma GenerateNinja_keeps (nodes : list nat) :
  I (headerState gomaDir NumCPU) ->
  exists n, final_state (GenerateNinja gomaDir NumCPU createRunners heap nodes) = Some n
            /\ (GenerateNinja gomaDir NumCPU createRunners heap nodes = Done n -> I n)
            /\ Q n.
Proof.
  intros Hinit. unfold GenerateNinja. rewrite generateNinja_eq.
  set (fuel := S (length heap)).
  pose proof (eachNode_keeps _ I Q True (emitNode_keeps fuel) nodes _ Hinit) as Hk.
  pose proof (eachNode_inv (emitNode gomaDir createRunners heap fuel)
                (fun n => (unvisited heap n < fuel)%nat) (fun _ => True) False
                (emitNode_fuel gomaDir createRunners heap fuel) nodes
                (headerState gomaDir NumCPU)) as Hfuel.
  destruct (eachNode _ _ nodes) as [n|n err|].
  - exists n. split; [done|]. split; [done | by apply nil_panic].
  - exists n. by split.
  - exfalso. apply Hfuel. unfold fuel.
    pose proof (unvisited_le_length heap (headerState gomaDir NumCPU)). lia.
Qed.

End Invariants.


(** The five ways [emitStatements] ends: without runners it writes the
    phony build statement or panics on a nil pointer; with runners it panics
    on a depfile error, or on a nil pointer behind the rule block, or writes
    the rule block and the build statement. *)
Ltac emit_cases cr :=
  rewrite emitStatements_eq;
  destruct (cr _) as [|? ?];
  [ destruct (getDepString _ _)
  | cbn zeta; destruct (getDepfile _) as [? [?|]];
    [ | destruct (getDepString _ _) ] ];
  cbn [Fprintf f done ruleId genRuleName fst snd mark].

Lemma elem_of_rule_block (l : line) (r d ss : string) :
  l ∈ rule_block r d ss ->
  l = LRule r \/ l = LDescription \/ l = LDepfile d \/ l = LRspfile
  \/ l = LRspfileContent ss \/ l = LCommand ss \/ l = LCommand "sh $out.rsp".
Proof.
  unfold rule_block. destruct (String.eqb d ""), (Str.len ss <=? 100000); simpl;
    rewrite ?elem_of_cons, elem_of_nil; naive_solver.
Qed.

Lemma genShellScript_pool_goma (gomaDir : string) (runners : list runner) :
  snd (genShellScript gomaDir runners) = true -> gomaDir <> "".
Proof.
  unfold genShellScript. destruct (genShellScript_loop _ _ _ _ _) as [buf used].
  cbn [snd]. intros [Hg _]%andb_true_iff Heq. by rewrite Heq in Hg.
Qed.

Section FileHead.

Variable gomaDir : string.
Variable NumCPU : Z.
Variable createRunners : DepNode -> list runner.
Variable heap : list DepNode.

Let head_inv (n : NinjaGenerator) : Prop :=
  (file_head gomaDir NumCPU `prefix_of` f n)
  /\ (LPool ∈ f n -> gomaDir <> "")
  /\ (LPoolDecl ∈ f n -> gomaDir <> "").

Lemma head_inv_emit (n : NinjaGenerator) (node : DepNode) :
  head_inv n ->
  match emitStatements gomaDir createRunners heap n node with
  | Done n2 | Panic n2 _ => head_inv n2
  | OutOfFuel => True
  end.
Proof.
  intros (Hpre & Hpool & Hdecl). unfold head_inv.
  emit_cases createRunners; try done;
    (split; [by apply prefix_app_r|]);
    rewrite !elem_of_app; split; intros [H|H]; auto;
    repeat match goal with
      | H : _ \/ _ |- _ => destruct H as [H|H]
      | H : _ ∈ _ ++ _ |- _ => apply elem_of_app in H as [H|H]
      | H : _ ∈ rule_block _ _ _ |- _ =>
          apply elem_of_rule_block in H; naive_solver
      | H : _ ∈ (if ?b then _ else _) |- _ =>
          destruct b eqn:Hb;
          [ by apply genShellScript_pool_goma in Hb | by apply elem_of_nil in H ]
      | H : _ ∈ _ :: _ |- _ => apply elem_of_cons in H as [H|H]; [discriminate H|]
      | H : _ ∈ [] |- _ => by apply elem_of_nil in H
      end.
Qed.

Lemma head_inv_run (nodes : list nat) :
  exists n, final_state (GenerateNinja gomaDir NumCPU createRunners heap nodes) = Some n
            /\ head_inv n.
Proof.
  assert (Hinit : head_inv (headerState gomaDir NumCPU)).
  { unfold head_inv, headerState, file_head. cbn [Fprintf f app].
    split; [done|]. destruct (String.eqb_spec gomaDir "") as [->|Hne]; simpl;
      split; intros H; try done;
      repeat (apply elem_of_cons in H as [H|H]; [discriminate H|]);
      by apply elem_of_nil in H. }
  destruct (GenerateNinja_keeps gomaDir NumCPU createRunners heap head_inv head_inv)
    with (nodes := nodes) as (n & Hn & _ & Hq); try done.
  - intros n p node _ _ _ H.
    pose proof (head_inv_emit (mark n (Output node)) node H) as He.
    by destruct (emitStatements _ _ _ _ node).
  - by exists n.
Qed.

End FileHead.

(** X9. The file of a run starts with the header, a blank line and, when
    the accelerator is configured, the declaration of the local pool with
    its depth; a build statement is bound to the local pool only in a file
    that declares the pool, and without accelerator the file mentions no
    pool at all. *)
Theorem GenerateNinja_head (gomaDir : string) (NumCPU : Z)
    (createRunners : DepNode -> list runner) (heap : list DepNode) (nodes : list nat) :
  exists n, final_state (GenerateNinja gomaDir NumCPU createRunners heap nodes) = Some n
    /\ (file_head gomaDir NumCPU `prefix_of` f n)
    /\ (LPool ∈ f n -> LPoolDecl ∈ f n /\ LDepth NumCPU ∈ f n)
    /\ (gomaDir = "" -> (LPool ∉ f n) /\ (LPoolDecl ∉ f n)).
Proof.
  destruct (head_inv_run gomaDir NumCPU createRunners heap nodes)
    as (n & Hn & Hpre & Hpool & Hdecl).
  exists n. split; [done|]. split; [done|]. split;
    [|intros Hg; split; intros H; [apply Hpool in H | apply Hdecl in H]; done].
  intros Hp. specialize (Hpool Hp). destruct Hpre as [rest ->].
  unfold file_head. destruct (String.eqb_spec gomaDir ""); [done|].
  rewrite !elem_of_app, !elem_of_cons. naive_solver.
Qed.


Lemma builds_for_rule_block (o r d ss : string) : builds_for o (rule_block r d ss) = O.
Proof.
  unfold rule_block, builds_for. by destruct (String.eqb d ""), (Str.len ss <=? 100000).
Qed.

Lemma builds_for_build (o o' r d : string) :
  builds_for o [LBuild o' r d] = if decide (o' = o) then 1%nat else O.
Proof.
  unfold builds_for. rewrite filter_cons.
  destruct (decide (o' = o)) as [->|Hne];
    [rewrite decide_True by done | rewrite decide_False by (simpl; congruence)]; done.
Qed.

Lemma builds_for_pool (o : string) (b : bool) :
  builds_for o (if b then [LPool] else []) = O.
Proof. by destruct b. Qed.

Section Builds.

Variable gomaDir : string.
Variable NumCPU : Z.
Variable createRunners : DepNode -> list runner.
Variable heap : list DepNode.

(** The build statements [emitStatements] adds: one for the node when it
    returns, none when it panics. *)
Lemma emitStatements_builds (n : NinjaGenerator) (node : DepNode) (o : string) :
  match emitStatements gomaDir createRunners heap n node with
  | Done n2 =>
      done n2 = done n
      /\ builds_for o (f n2)
         = (builds_for o (f n) + if decide (Output node = o) then 1 else 0)%nat
  | Panic n2 _ => done n2 = done n /\ builds_for o (f n2) = builds_for o (f n)
  | OutOfFuel => False
  end.
Proof.
  emit_cases createRunners; (split; [done|]);
    rewrite ?builds_for_app, ?builds_for_rule_block, ?builds_for_build, ?builds_for_pool;
    try (change (builds_for o [LRule _; LDescription]) with O); simpl; lia.
Qed.

Let built_inv (n : NinjaGenerator) : Prop :=
  forall o, (0 < builds_for o (f n))%nat ->
    o ∈ done n
    /\ exists i q, heap !! i = Some q /\ Output q = o /\ dangling q = false.

Lemma built_inv_run (nodes : list nat) :
  exists n, final_state (GenerateNinja gomaDir NumCPU createRunners heap nodes) = Some n
            /\ built_inv n.
Proof.
  assert (Hinit : built_inv (headerState gomaDir NumCPU)).
  { intros o. unfold headerState, builds_for. cbn [Fprintf f app].
    destruct (String.eqb gomaDir ""); simpl; lia. }
  destruct (GenerateNinja_keeps gomaDir NumCPU createRunners heap built_inv built_inv)
    with (nodes := nodes) as (n & Hn & _ & Hq); try done.
  - intros n p node _ _ _ H o Ho. destruct (H o Ho) as [Hd Hq].
    split; [simpl; set_solver | done].
  - intros n p node Hp Hnot Hdang H.
    assert (Hmark : built_inv (mark n (Output node))).
    { intros o Ho. destruct (H o Ho) as [Hd Hq]. split; [simpl; set_solver | done]. }
    assert (Hstep : forall n2,
              (forall o, done n2 = done (mark n (Output node))
                         /\ (builds_for o (f n2)
                             <= builds_for o (f n)
                                + if decide (Output node = o) then 1 else 0)%nat) ->
              built_inv n2).
    { intros n2 Hn2 o Ho. destruct (Hn2 o) as [Hd Hb]. rewrite Hd.
      destruct (decide (Output node = o)) as [<-|Hne].
      - split; [simpl; set_solver|]. by exists p, node.
      - apply Hmark. simpl. lia. }
    pose proof (emitStatements_builds (mark n (Output node)) node) as He.
    destruct (emitStatements _ _ _ _ node) as [n2|n2 err|]; [| |done]; apply Hstep;
      intros o; destruct (He o) as [Hd Hb]; (split; [done|]); simpl in Hb; lia.
  - by exists n.
Qed.

End Builds.

(** X10. Every build statement of a run is for the marked output of a node
    of the store that has commands, dependencies or is phony: an output
    that only dangling nodes carry gets no build statement. *)
Theorem GenerateNinja_builds_nodes (gomaDir : string) (NumCPU : Z)
    (createRunners : DepNode -> list runner) (heap : list DepNode) (nodes : list nat) :
  exists n, final_state (GenerateNinja gomaDir NumCPU createRunners heap nodes) = Some n
    /\ (forall o, (0 < builds_for o (f n))%nat ->
          o ∈ done n
          /\ exists i q, heap !! i = Some q /\ Output q = o /\ dangling q = false)
    /\ (forall o, (forall i q, heap !! i = Some q -> Output q = o -> dangling q = true) ->
          builds_for o (f n) = O).
Proof.
  destruct (built_inv_run gomaDir NumCPU createRunners heap nodes) as (n & Hn & Hinv).
  exists n. split; [done|]. split; [exact Hinv|].
  intros o Hall. destruct (builds_for o (f n)) eqn:Hb; [done|].
  destruct (Hinv o) as (_ & i & q & Hq & Ho & Hd); [lia|].
  rewrite (Hall i q Hq Ho) in Hd. done.
Qed.


Lemma rule_names_app (l1 l2 : list line) :
  rule_names (l1 ++ l2) = rule_names l1 ++ rule_names l2.
Proof. apply omap_app. Qed.

Lemma rule_names_rule_block (r d ss : string) : rule_names (rule_block r d ss) = [r].
Proof. unfold rule_block. by destruct (String.eqb d ""), (Str.len ss <=? 100000). Qed.

Lemma uses_declared_mono (log : list line) :
  forall D D', D ⊆ D' -> uses_declared D log = true -> uses_declared D' log = true.
Proof.
  induction log as [|[] log IH]; intros D D' Hsub; simpl; try done; try by apply IH.
  - apply IH. set_solver.
  - rewrite !andb_true_iff, !orb_true_iff, !bool_decide_eq_true.
    intros [[?|?] ?]; (split; [|by eapply IH]); [by left | right; set_solver].
Qed.

Lemma uses_declared_app (l1 l2 : list line) :
  forall D, uses_declared D l1 = true ->
            (forall D', uses_declared D' l2 = true) ->
            uses_declared D (l1 ++ l2) = true.
Proof.
  induction l1 as [|[] l1 IH]; intros D H1 H2; simpl in *; try done; try by apply IH.
  apply andb_true_iff in H1 as [-> H1]. by apply IH.
Qed.

Lemma uses_declared_rule_build (D : list string) (r d ss o dep : string) (pool : bool) :
  uses_declared D (rule_block r d ss ++ [LBuild o r dep] ++ (if pool then [LPool] else []))
  = true.
Proof.
  unfold rule_block.
  destruct (String.eqb d ""), (Str.len ss <=? 100000), pool; simpl;
    rewrite andb_true_r, orb_true_iff, !bool_decide_eq_true; right; set_solver.
Qed.

Lemma uses_declared_rule_block (D : list string) (r d ss : string) :
  uses_declared D (rule_block r d ss) = true.
Proof. unfold rule_block. by destruct (String.eqb d ""), (Str.len ss <=? 100000). Qed.

Section Rules.

Variable gomaDir : string.
Variable NumCPU : Z.
Variable createRunners : DepNode -> list runner.
Variable heap : list DepNode.

Let declared_inv (n : NinjaGenerator) : Prop := uses_declared [] (f n) = true.

Lemma declared_inv_run (nodes : list nat) :
  exists n, final_state (GenerateNinja gomaDir NumCPU createRunners heap nodes) = Some n
            /\ declared_inv n.
Proof.
  assert (Hinit : declared_inv (headerState gomaDir NumCPU)).
  { unfold declared_inv, headerState. cbn [Fprintf f app].
    by destruct (String.eqb gomaDir ""). }
  destruct (GenerateNinja_keeps gomaDir NumCPU createRunners heap declared_inv declared_inv)
    with (nodes := nodes) as (n & Hn & _ & Hq); try done.
  - intros n p node _ _ _ H. change (declared_inv n) in H. unfold declared_inv in *.
    emit_cases createRunners; try done; apply uses_declared_app; try done; intros D';
      first [apply uses_declared_rule_block | apply uses_declared_rule_build].
  - by exists n.
Qed.

Hypothesis small : Z.of_nat (length heap) < 2 ^ 63.

Let names_inv (n : NinjaGenerator) : Prop :=
  exists k, ruleId n = Z.of_nat k
            /\ rule_names (f n) = rule_name <$> seq 0 k
            /\ (k <= size (done n))%nat
            /\ done n ⊆ outputs_of heap.

Let names_panic (n : NinjaGenerator) : Prop :=
  exists k, rule_names (f n) = rule_name <$> seq 0 k.

Lemma size_outputs_of : (size (outputs_of heap) <= length heap)%nat.
Proof.
  pose proof (unvisited_le_length heap newGenerator) as H.
  unfold unvisited in H. simpl in H. by rewrite difference_empty_L in H.
Qed.

Lemma names_inv_run (nodes : list nat) :
  exists n, final_state (GenerateNinja gomaDir NumCPU createRunners heap nodes) = Some n
            /\ names_panic n.
Proof.
  assert (Hinit : names_inv (headerState gomaDir NumCPU)).
  { exists O. unfold headerState. cbn [Fprintf f app ruleId done].
    repeat split; [by destruct (String.eqb gomaDir "") | lia | set_solver]. }
  assert (Hweak : forall n, names_inv n -> names_panic n).
  { intros n (k & _ & Hk & _). by exists k. }
  assert (Hmark : forall n p node,
            heap !! p = Some node -> Output node ∉ done n -> names_inv n ->
            exists k, ruleId n = Z.of_nat k
                      /\ rule_names (f n) = rule_name <$> seq 0 k
                      /\ (S k <= size (done (mark n (Output node))))%nat
                      /\ done (mark n (Output node)) ⊆ outputs_of heap
                      /\ wrap_int (Z.of_nat k + 1) = Z.of_nat (S k)).
  { intros n p node Hp Hnot (k & Hid & Hnames & Hk & Hsub).
    assert (Hin : Output node ∈ outputs_of heap).
    { unfold outputs_of. apply elem_of_list_to_set, list_elem_of_fmap.
      exists node. split; [done|]. by eapply list_elem_of_lookup_2. }
    assert (Hsize : size (done (mark n (Output node))) = S (size (done n))).
    { simpl. rewrite size_union by set_solver. by rewrite size_singleton. }
    assert (Hsub' : done (mark n (Output node)) ⊆ outputs_of heap) by (simpl; set_solver).
    exists k. repeat split; try done; [lia|].
    pose proof (subseteq_size _ _ Hsub') as Hle. pose proof size_outputs_of.
    unfold wrap_int. rewrite Z.mod_small; lia. }
  destruct (GenerateNinja_keeps gomaDir NumCPU createRunners heap names_inv names_panic)
    with (nodes := nodes) as (n & Hn & _ & Hq); try done.
  - intros n p node Hp Hnot _ H.
    destruct (Hmark n p node Hp Hnot H) as (k & Hid & Hnames & Hk & Hsub & _).
    exists k. repeat split; try done. lia.
  - intros n p node Hp Hnot _ H.
    destruct (Hmark n p node Hp Hnot H) as (k & Hid & Hnames & Hk & Hsub & Hwrap).
    assert (Hnext : rule_names (f n) ++ ["rule" +:+ pretty (ruleId n)]
                    = rule_name <$> seq 0 (S k)).
    { rewrite seq_S, fmap_app, Hnames, Hid. done. }
    cbn [mark done] in Hk, Hsub.
    emit_cases createRunners; unfold names_inv, names_panic;
      cbn [Fprintf f done ruleId mark].
    + exists k. rewrite rule_names_app. cbn [rule_names omap]. rewrite app_nil_r.
      repeat split; try done. lia.
    + by exists k.
    + exists (S k). by rewrite rule_names_app.
    + exists (S k). rewrite !rule_names_app, rule_names_rule_block.
      replace (rule_names (if snd (genShellScript gomaDir (r :: l)) then [LPool] else []))
        with (@nil string) by (by destruct (snd _)).
      cbn [rule_names omap app]. rewrite Hid, Hwrap. repeat split; try done.
      by rewrite <- Hid.
    + exists (S k). by rewrite rule_names_app, rule_names_rule_block.
  - by exists n.
Qed.

End Rules.

(** X11. Every build statement of a run names the built-in rule [phony] or
    a rule declared earlier in the file. *)
Theorem GenerateNinja_rules_declared (gomaDir : string) (NumCPU : Z)
    (createRunners : DepNode -> list runner) (heap : list DepNode) (nodes : list nat) :
  exists n, final_state (GenerateNinja gomaDir NumCPU createRunners heap nodes) = Some n
            /\ uses_declared [] (f n) = true.
Proof. apply declared_inv_run. Qed.

Lemma rule_name_inj (i j : nat) : rule_name i = rule_name j -> i = j.
Proof.
  unfold rule_name. intros H. apply (inj (String.append "rule")) in H.
  apply (inj pretty) in H. lia.
Qed.

(** X12. On a store of fewer than 2^63 nodes the rule blocks of a run are
    named rule0, rule1, ... in the order of the file, so that no two rule
    blocks share a name. *)
Theorem GenerateNinja_rule_names (gomaDir : string) (NumCPU : Z)
    (createRunners : DepNode -> list runner) (heap : list DepNode) (nodes : list nat) :
  Z.of_nat (length heap) < 2 ^ 63 ->
  exists n, final_state (GenerateNinja gomaDir NumCPU createRunners heap nodes) = Some n
            /\ (exists k, rule_names (f n) = rule_name <$> seq 0 k)
            /\ NoDup (rule_names (f n)).
Proof.
  intros Hsmall.
  destruct (names_inv_run gomaDir NumCPU createRunners heap Hsmall nodes)
    as (n & Hn & k & Hk).
  exists n. split; [done|]. split; [by exists k|].
  rewrite Hk. apply NoDup_fmap_2; [|apply NoDup_seq].
  intros i j. apply rule_name_inj.
Qed.

Lemma GenerateNinja_rule_names_witness :
  exists n, final_state (GenerateNinja "" 4 plainRunners diamond [0%nat]) = Some n
            /\ (exists k, rule_names (f n) = rule_name <$> seq 0 k)
            /\ NoDup (rule_names (f n)).
Proof.
  assert (H : Z.of_nat (length diamond) < 2 ^ 63) by reflexivity.
  exact (GenerateNinja_rule_names "" 4 plainRunners diamond [0%nat] H).
Defined.


(** ** Every reachable node is emitted *)

Lemma eachNode_marks (heap : list DepNode) (visit : NinjaGenerator -> nat -> outcome)
    (J : NinjaGenerator -> Prop) :
  (forall n p, J n ->
     match visit n p with
     | Done n' => J n' /\ done n ⊆ done n' /\ marked heap n' p
     | _ => True
     end) ->
  forall ps n, J n ->
    match eachNode visit n ps with
    | Done n' => J n' /\ done n ⊆ done n' /\ forall p, p ∈ ps -> marked heap n' p
    | _ => True
    end.
Proof.
  intros Hv ps. induction ps as [|p ps IH]; intros n Hn; simpl.
  - split; [done|]. split; [done|]. intros p Hp. by apply elem_of_nil in Hp.
  - specialize (Hv n p Hn). destruct (visit n p) as [n1| |]; [|done..].
    destruct Hv as (Hn1 & Hsub1 & Hm). specialize (IH n1 Hn1).
    destruct (eachNode visit n1 ps) as [n2| |]; [|done..].
    destruct IH as (Hn2 & Hsub2 & Hall). split; [done|]. split; [set_solver|].
    intros q [->|Hq]%elem_of_cons; [|by apply Hall].
    destruct Hm as (node & Hnode & Hin). exists node. split; [done | set_solver].
Qed.

Section Complete.

Variable gomaDir : string.
Variable NumCPU : Z.
Variable createRunners : DepNode -> list runner.
Variable heap : list DepNode.

Hypothesis unique : unique_outputs heap.

Lemma same_output (i j : nat) (q r : DepNode) :
  heap !! i = Some q -> heap !! j = Some r -> Output q = Output r -> q = r.
Proof.
  intros Hi Hj Ho.
  assert (i = j); [|congruence].
  apply (NoDup_lookup _ _ _ (Output q) unique); rewrite list_lookup_fmap.
  - by rewrite Hi.
  - by rewrite Hj, Ho.
Qed.

Let inv (S : gset string) (n : NinjaGenerator) : Prop :=
  good n /\ built heap n /\ closed heap S n.

Lemma closed_mono (S : gset string) (n n' : NinjaGenerator) (o : string) :
  done n' = {[o]} ∪ done n -> closed heap S n -> closed heap ({[o]} ∪ S) n'.
Proof.
  intros Hd Hc i q Hq Hin Hout d Hdep.
  destruct (Hc i q Hq) with (d := d) as (dq & Hdq & Hdin); [set_solver..|done|].
  exists dq. split; [done|]. set_solver.
Qed.

Lemma emitNode_complete (fuel : nat) :
  forall S n p, inv S n ->
    match emitNode gomaDir createRunners heap fuel n p with
    | Done n' => inv S n' /\ done n ⊆ done n' /\ marked heap n' p
    | _ => True
    end.
Proof.
  induction fuel as [|fuel IH]; intros S n p (Hgood & Hbuilt & Hclosed); [done|].
  pose proof (emitNode_good gomaDir createRunners heap (Datatypes.S fuel) n p Hgood) as Hg.
  cbn [emitNode] in Hg |- *.
  destruct (heap !! p) as [node|] eqn:Hp; [|done].
  case_bool_decide as Hdone.
  { split; [done|]. split; [done|]. by exists node. }
  cbn zeta in Hg |- *.
  destruct (Hgood) as (_ & _ & Hzero). destruct (Hzero _ Hdone) as [Hb0 _].
  fold (dangling node) in Hg |- *. destruct (dangling node) eqn:Hdang.
  - destruct Hg as [Hg _]. split; [|split; [simpl; set_solver|]].
    + split; [done|]. split.
      * intros i q Hq Hin. simpl in Hin. simpl.
        destruct (decide (Output q = Output node)) as [Ho|Hne].
        -- rewrite (same_output i p q node Hq Hp Ho). by rewrite Hdang, Hb0.
        -- apply Hbuilt with (i := i); [done | set_solver].
      * intros i q Hq Hin Hout d Hdep. simpl in Hin.
        destruct (decide (Output q = Output node)) as [Ho|Hne].
        -- rewrite (same_output i p q node Hq Hp Ho) in Hdep.
           unfold dangling in Hdang.
           apply andb_true_iff in Hdang as [[_ Hlen%Nat.eqb_eq]%andb_true_iff _].
           destruct (Deps node); [by apply elem_of_nil in Hdep | done].
        -- destruct (Hclosed i q Hq) with (d := d) as (dq & Hdq & Hdin);
             [set_solver | done | done |].
           exists dq. split; [done | simpl; set_solver].
    + exists node. split; [done | simpl; set_solver].
  - pose proof (emitStatements_builds gomaDir createRunners heap
                  (mark n (Output node)) node) as Hb.
    destruct (emitStatements gomaDir createRunners heap (mark n (Output node)) node)
      as [n2| |] eqn:Hemit; [|done..].
    assert (Hd2 : done n2 = {[Output node]} ∪ done n) by (by destruct (Hb "")).
    assert (Hgood2 : good n2).
    { pose proof (emitStatements_counts gomaDir createRunners heap
                    (mark n (Output node)) node (proj1 Hgood)) as Hc.
      rewrite Hemit in Hc. destruct Hc as (_ & Hp2 & Hcount).
      destruct Hgood as (_ & Hm & Hz).
      split; [done|]. split.
      - intros o. destruct (Hcount o) as [Hcb Hcr]. simpl in Hcb, Hcr.
        destruct (Hm o) as [Hb1 Hr1]. destruct (Hz _ Hdone) as [? ?].
        destruct (decide (Output node = o)) as [<-|_]; lia.
      - intros o Ho. rewrite Hd2 in Ho.
        destruct (Hcount o) as [Hcb Hcr]. simpl in Hcb, Hcr.
        rewrite decide_False in Hcb, Hcr by set_solver.
        destruct (Hz o) as [Hb1 Hr1]; [set_solver|]. lia. }
    assert (Hbuilt2 : built heap n2).
    { intros i q Hq Hin. rewrite Hd2 in Hin. destruct (Hb (Output q)) as [_ ->]. simpl.
      destruct (decide (Output node = Output q)) as [Ho|Hne].
      - rewrite (same_output i p q node Hq Hp (eq_sym Ho)), Hdang, Hb0. done.
      - rewrite (Hbuilt i q Hq) by set_solver. lia. }
    assert (Hclosed2 : closed heap ({[Output node]} ∪ S) n2) by (by apply closed_mono with n).
    pose proof (eachNode_marks heap (emitNode gomaDir createRunners heap fuel)
                  (inv ({[Output node]} ∪ S)) (IH _) (Deps node) n2
                  (conj Hgood2 (conj Hbuilt2 Hclosed2))) as Hloop.
    destruct (eachNode _ n2 (Deps node)) as [n3| |]; [|done..].
    destruct Hloop as ((Hgood3 & Hbuilt3 & Hclosed3) & Hsub & Hdeps).
    split; [|split; [rewrite Hd2 in Hsub; set_solver|]].
    + split; [done|]. split; [done|].
      intros i q Hq Hin Hout d Hdep.
      destruct (decide (Output q = Output node)) as [Ho|Hne].
      * rewrite (same_output i p q node Hq Hp Ho) in Hdep. by apply Hdeps.
      * apply (Hclosed3 i q Hq Hin); [set_solver | done].
    + exists node. split; [done|]. rewrite Hd2 in Hsub. set_solver.
Qed.

Lemma reach_marked (n : NinjaGenerator) (p q : nat) :
  closed heap ∅ n -> reach heap p q -> marked heap n p -> marked heap n q.
Proof.
  intros Hc Hr. induction Hr as [|p d q node Hp Hd _ IH]; [done|].
  intros (node' & Hp' & Hin). apply IH.
  assert (node' = node) as -> by congruence.
  by apply (Hc p node Hp Hin) with (d := d).
Qed.

Lemma GenerateNinja_complete (nodes : list nat) (n : NinjaGenerator) :
  GenerateNinja gomaDir NumCPU createRunners heap nodes = Done n ->
  forall p q node,
    p ∈ nodes -> reach heap p q -> heap !! q = Some node ->
    Output node ∈ done n
    /\ builds_for (Output node) (f n) = if dangling node then O else 1%nat.
Proof.
  unfold GenerateNinja. rewrite generateNinja_eq. intros Hrun p q node Hp Hreach Hq.
  assert (Hinit : inv ∅ (headerState gomaDir NumCPU)).
  { split; [apply headerState_good|]. split.
    - intros i r _ Hin. by apply elem_of_empty in Hin.
    - intros i r _ Hin. by apply elem_of_empty in Hin. }
  pose proof (eachNode_marks heap _ (inv ∅) (emitNode_complete (S (length heap)) ∅) nodes _ Hinit) as Hall.
  rewrite Hrun in Hall. destruct Hall as ((_ & Hbuilt & Hclosed) & _ & Hmarked).
  destruct (reach_marked n p q Hclosed Hreach (Hmarked p Hp)) as (node' & Hq' & Hin).
  assert (node' = node) as -> by congruence.
  split; [done|]. by apply (Hbuilt q).
Qed.

End Complete.


(** X13. When the output path identifies the node and the run returns,
    every node reached from a root along dependency pointers is marked and
    has exactly one build statement, or none when it is dangling. *)
Theorem GenerateNinja_exactly_once (gomaDir : string) (NumCPU : Z)
    (createRunners : DepNode -> list runner) (heap : list DepNode) (nodes : list nat)
    (n : NinjaGenerator) (p q : nat) (node : DepNode) :
  unique_outputs heap ->
  GenerateNinja gomaDir NumCPU createRunners heap nodes = Done n ->
  p ∈ nodes -> reach heap p q -> heap !! q = Some node ->
  Output node ∈ done n
  /\ builds_for (Output node) (f n) = if dangling node then O else 1%nat.
Proof.
  intros Hu Hrun Hp Hr Hq.
  exact (GenerateNinja_complete gomaDir NumCPU createRunners heap Hu nodes n Hrun
           p q node Hp Hr Hq).
Qed.

Lemma diamond_unique : unique_outputs diamond.
Proof.
  unfold unique_outputs, diamond. simpl.
  repeat (constructor; [rewrite ?elem_of_cons, elem_of_nil; naive_solver|]).
  constructor.
Qed.

Lemma diamond_reach : reach diamond 0 3.
Proof.
  eapply (reach_dep diamond 0 1 3); [reflexivity | set_solver |].
  eapply (reach_dep diamond 1 3 3); [reflexivity | set_solver |].
  apply reach_here.
Qed.

Lemma GenerateNinja_exactly_once_witness :
  exists n, GenerateNinja "" 4 plainRunners diamond [0%nat] = Done n
            /\ builds_for "d" (f n) = 1%nat.
Proof.
  eexists. split; [vm_compute; reflexivity|].
  refine (proj2 (GenerateNinja_exactly_once "" 4 plainRunners diamond [0%nat] _ 0 3
                   {| Output := "d"; Cmds := ["gen"]; Deps := []; IsOrderOnly := false;
                      IsPhony := false |}
                   diamond_unique _ _ diamond_reach eq_refl)).
  - vm_compute. reflexivity.
  - set_solver.
Defined.

(** ** What a single visit changes *)

Section Visit.

Variable gomaDir : string.
Variable createRunners : DepNode -> list runner.
Variable heap : list DepNode.

Lemma emitStatements_appends (n : NinjaGenerator) (node : DepNode) :
  match final_state (emitStatements gomaDir createRunners heap n node) with
  | Some n' => f n `prefix_of` f n' /\ done n' = done n
  | None => False
  end.
Proof. emit_cases createRunners; cbn [final_state]; split; done || by apply prefix_app_r. Qed.

Let grows (n n' : NinjaGenerator) : Prop := f n `prefix_of` f n' /\ done n ⊆ done n'.

Lemma eachNode_grows (visit : NinjaGenerator -> nat -> outcome) :
  (forall n p, match final_state (visit n p) with
               | Some n' => grows n n'
               | None => True
               end) ->
  forall ps n, match final_state (eachNode visit n ps) with
               | Some n' => grows n n'
               | None => True
               end.
Proof.
  intros Hv ps. induction ps as [|p ps IH]; intros n; simpl; [done|].
  specialize (Hv n p). destruct (visit n p) as [n1|n1 err|]; simpl in *; [|done..].
  specialize (IH n1). destruct (final_state (eachNode visit n1 ps)); [|done].
  destruct Hv, IH. split; [by etrans | set_solver].
Qed.

Lemma emitNode_grows (fuel : nat) :
  forall n p,
    match final_state (emitNode gomaDir createRunners heap fuel n p) with
    | Some n' => grows n n'
    | None => True
    end.
Proof.
  induction fuel as [|fuel IH]; intros n p; cbn [emitNode]; [done|].
  destruct (heap !! p) as [node|]; [|done].
  case_bool_decide; [done|]. cbn zeta.
  destruct (_ && _); [split; [done | simpl; set_solver]|].
  pose proof (emitStatements_appends (mark n (Output node)) node) as He.
  destruct (emitStatements _ _ _ _ node) as [n2|n2 err|]; cbn [final_state] in *.
  - pose proof (eachNode_grows _ IH (Deps node) n2) as Hl.
    destruct (final_state (eachNode _ n2 (Deps node))); [|done].
    destruct He as [Hf Hd], Hl as [Hf' Hd']. rewrite Hd in Hd'. simpl in *.
    split; [by etrans | set_solver].
  - destruct He as [Hf Hd]. split; [done|]. rewrite Hd. simpl. set_solver.
  - done.
Qed.

Lemma emitNode_marks (fuel : nat) (n n' : NinjaGenerator) (p : nat) :
  emitNode gomaDir createRunners heap fuel n p = Done n' -> marked heap n' p.
Proof.
  destruct fuel as [|fuel]; [done|]. cbn [emitNode].
  destruct (heap !! p) as [node|] eqn:Hp; [|done].
  case_bool_decide as Hdone; [intros [= <-]; by exists node|]. cbn zeta.
  destruct (_ && _); [intros [= <-]; exists node; split; [done | simpl; set_solver]|].
  pose proof (emitStatements_appends (mark n (Output node)) node) as He.
  destruct (emitStatements _ _ _ _ node) as [n2| |]; [|done..]. cbn [final_state] in He.
  intros Hrun. pose proof (eachNode_grows _ (emitNode_grows fuel) (Deps node) n2) as Hl.
  rewrite Hrun in Hl. destruct He as [_ Hd], Hl as [_ Hd']. rewrite Hd in Hd'.
  exists node. split; [done | simpl in Hd'; set_solver].
Qed.

End Visit.

(** X14. Whatever a visit leaves behind, returned or panicked, extends the
    file it found and keeps every mark it found; and a visit that returns
    leaves its own node marked. *)
Theorem emitNode_effects (gomaDir : string) (createRunners : DepNode -> list runner)
    (heap : list DepNode) (fuel : nat) (n n' : NinjaGenerator) (p : nat) :
  final_state (emitNode gomaDir createRunners heap fuel n p) = Some n' ->
  (f n `prefix_of` f n')
  /\ done n ⊆ done n'
  /\ (emitNode gomaDir createRunners heap fuel n p = Done n' -> marked heap n' p).
Proof.
  intros Hfin. pose proof (emitNode_grows gomaDir createRunners heap fuel n p) as Hg.
  rewrite Hfin in Hg. destruct Hg. split; [done|]. split; [done|].
  apply emitNode_marks.
Qed.

Lemma emitNode_effects_witness :
  exists n', final_state (emitNode "" plainRunners cycle 3 (headerState "" 1) 0) = Some n'
             /\ ([LHeader; LBlank] `prefix_of` f n').
Proof.
  eexists. split; [vm_compute; reflexivity|].
  refine (proj1 (emitNode_effects "" plainRunners cycle 3 (headerState "" 1) _ 0 _)).
  vm_compute. reflexivity.
Defined.

(** ** The launcher script *)

Lemma render_sh_text (l : shline) : render_sh l = sh_text l +:+ NL.
Proof. destruct l; simpl; by rewrite ?append_assoc. Qed.

Lemma text_lines_go_line (l cur rest : string) :
  no_lf l ->
  text_lines_go cur (l +:+ NL +:+ rest) = (cur +:+ l) :: text_lines_go "" rest.
Proof.
  unfold no_lf. revert cur. induction l as [|c l IH]; intros cur Hl.
  - by rewrite append_nil_r.
  - cbn [Str.mem] in Hl. apply orb_false_iff in Hl as [Hc Hl].
    cbn [String.append text_lines_go]. rewrite Ascii.eqb_sym, Hc.
    rewrite IH by done. by rewrite append_assoc.
Qed.

(** When no write holds a line feed of its own, the lines of the file are
    the writes. *)
Lemma text_lines_script (ls : list shline) :
  Forall (fun l => no_lf (sh_text l)) ls ->
  text_lines (script_text ls) = sh_text <$> ls.
Proof.
  unfold text_lines. induction 1 as [|l ls Hl _ IH]; [done|].
  cbn [script_text]. rewrite render_sh_text, append_assoc.
  rewrite text_lines_go_line by done. by rewrite IH.
Qed.

Lemma no_lf_append (a b : string) : no_lf (a +:+ b) <-> no_lf a /\ no_lf b.
Proof. unfold no_lf. rewrite mem_append. apply orb_false_iff. Qed.

(** The lines of the launcher script, when no text that goes into it holds
    a line feed. *)
Lemma generateShell_lines (gomaDir : string) (EvaluateVar : string -> string)
    (order : list (string * bool)) :
  single_lines EvaluateVar order ->
  text_lines (script_text (generateShell gomaDir EvaluateVar order))
  = ("#!" +:+ script_shell EvaluateVar)
    :: (entry_line EvaluateVar <$> order)
    ++ ["exec ninja" +:+ (if String.eqb gomaDir "" then "" else " -j300")].
Proof.
  intros [Hshell Horder]. rewrite text_lines_script.
  - unfold generateShell. cbn [app fmap list_fmap sh_text]. fold (script_shell EvaluateVar).
    f_equal. rewrite fmap_app. f_equal.
    + change (map ?g order) with (g <$> order). rewrite <- list_fmap_compose.
      apply list_fmap_ext. intros _ [name []] _; reflexivity.
    + by destruct (String.eqb gomaDir "").
  - unfold generateShell. fold (script_shell EvaluateVar). cbn [app].
    apply Forall_cons. split; [by apply no_lf_append|].
    apply Forall_app. split.
    + apply Forall_fmap. eapply Forall_impl; [exact Horder|].
      intros [name export] [Hn Hv]. simpl in *.
      destruct export; cbn [sh_text]; rewrite !no_lf_append;
        repeat split; try reflexivity; auto.
    + apply Forall_singleton. by destruct (String.eqb gomaDir "").
Qed.

(** An enumeration yields every entry of the map, and every variable
    once. *)
Lemma enumerates_entries (exports : gmap string bool) (order : list (string * bool)) :
  enumerates exports order ->
  NoDup (fst <$> order)
  /\ (forall name b, (name, b) ∈ order <-> exports !! name = Some b).
Proof.
  unfold enumerates. intros Horder. split.
  - rewrite Horder. apply NoDup_fst_map_to_list.
  - intros name b. rewrite Horder. apply elem_of_map_to_list.
Qed.

(** C9 (as amended). When neither the interpreter, nor a variable name, nor
    the evaluated text of an exported variable holds a line feed, the lines
    of the launcher script are the interpreter line, then for every entry of
    the exports, in the order of the enumeration, [export name=text] when its
    flag is true and [unset name] when it is false, then the call of ninja;
    the enumeration holds every variable of the exports once; and every line
    of the script that begins with [export ] or [unset ] is the line of an
    entry of the exports. *)
Theorem generateShell_script_lines (gomaDir : string) (EvaluateVar : string -> string)
    (exports : gmap string bool) (order : list (string * bool)) :
  enumerates exports order ->
  single_lines EvaluateVar order ->
  script_fidelity gomaDir EvaluateVar exports order.
Proof.
  intros Horder Hsingle. unfold script_fidelity. cbn zeta.
  destruct (enumerates_entries _ _ Horder) as [Hnodup Hin].
  rewrite generateShell_lines by done.
  split; [done|]. split; [done|]. split; [done|].
  intros l [->|[Hl|Hl]%elem_of_app]%elem_of_cons Hpre.
  - destruct Hpre as [Hpre|Hpre]; discriminate Hpre.
  - apply list_elem_of_fmap in Hl as ([name b] & -> & He).
    exists name, b. split; [by apply Hin | done].
  - apply list_elem_of_singleton in Hl. subst l.
    destruct Hpre as [Hpre|Hpre]; discriminate Hpre.
Qed.

Lemma generateShell_script_lines_witness :
  enumerates (<["PATH" := true]> (<["LANG" := false]> ∅)) [("LANG", false); ("PATH", true)]
  /\ single_lines (fun _ => "/bin") [("LANG", false); ("PATH", true)]
  /\ text_lines (script_text (generateShell "" (fun _ => "/bin")
                                [("LANG", false); ("PATH", true)]))
     = ["#!/bin"; "unset LANG"; "export PATH=/bin"; "exec ninja"].
Proof.
  assert (H : enumerates (<["PATH" := true]> (<["LANG" := false]> ∅))
                [("LANG", false); ("PATH", true)]).
  { unfold enumerates. vm_compute. reflexivity. }
  assert (H' : single_lines (fun _ => "/bin") [("LANG", false); ("PATH", true)]).
  { split; [reflexivity|]. constructor; [split; [reflexivity | intros _; reflexivity]|].
    constructor; [split; [reflexivity | intros _; reflexivity]|]. constructor. }
  split; [exact H|]. split; [exact H'|].
  exact (proj1 (generateShell_script_lines "" (fun _ => "/bin") _ _ H H')).
Defined.

(** C9, as the specification words it, fails when the evaluated text of an
    exported variable holds a line feed: with [FOO] exported and evaluating
    to [x], a line feed and [unset PATH], the script holds the line
    [unset PATH], and [PATH] is no variable of the exports. *)
Lemma generateShell_line_feed_counterexample :
  enumerates (<["FOO" := true]> ∅) [("FOO", true)]
  /\ ~ script_fidelity "" two_line_FOO (<["FOO" := true]> ∅) [("FOO", true)]
  /\ text_lines (script_text (generateShell "" two_line_FOO [("FOO", true)]))
     = ["#!/bin/sh"; "export FOO=x"; "unset PATH"; "exec ninja"]
  /\ (<["FOO" := true]> ∅ : gmap string bool) !! "PATH" = None.
Proof.
  split; [unfold enumerates; vm_compute; reflexivity|].
  split; [|split; [vm_compute; reflexivity | vm_compute; reflexivity]].
  intros (Hlines & _). vm_compute in Hlines. discriminate Hlines.
Qed.

(** ** The shape of the launcher script *)

(** X15. When neither the interpreter, nor a variable name, nor the
    evaluated text of an exported variable holds a line feed, the launcher
    script has one line for every variable of the exports and two more: its
    first line names the interpreter, the value of [SHELL], or [/bin/sh]
    when that is empty, and its last line calls ninja, with [-j300] exactly
    when the accelerator is configured. *)
Theorem generateShell_shape (gomaDir : string) (EvaluateVar : string -> string)
    (exports : gmap string bool) (order : list (string * bool)) :
  enumerates exports order ->
  single_lines EvaluateVar order ->
  length (text_lines (script_text (generateShell gomaDir EvaluateVar order)))
  = (size exports + 2)%nat
  /\ head (text_lines (script_text (generateShell gomaDir EvaluateVar order)))
     = Some ("#!" +:+ (if String.eqb (EvaluateVar "SHELL") "" then "/bin/sh"
                       else EvaluateVar "SHELL"))
  /\ last (text_lines (script_text (generateShell gomaDir EvaluateVar order)))
     = Some ("exec ninja" +:+ (if String.eqb gomaDir "" then "" else " -j300")).
Proof.
  intros Horder Hsingle. rewrite generateShell_lines by done.
  split; [|split; [done|]].
  - cbn [length]. rewrite length_app, length_fmap. cbn [length].
    rewrite (Permutation_length Horder), length_map_to_list. lia.
  - by rewrite app_comm_cons, last_snoc.
Qed.

Lemma generateShell_shape_witness :
  length (text_lines (script_text (generateShell "/goma" (fun _ => "")
                                     [("LANG", false); ("PATH", true)]))) = 4%nat
  /\ head (text_lines (script_text (generateShell "/goma" (fun _ => "")
                                      [("LANG", false); ("PATH", true)])))
     = Some "#!/bin/sh"
  /\ last (text_lines (script_text (generateShell "/goma" (fun _ => "")
                                      [("LANG", false); ("PATH", true)])))
     = Some "exec ninja -j300".
Proof.
  assert (H : enumerates (<["PATH" := true]> (<["LANG" := false]> ∅))
                [("LANG", false); ("PATH", true)]).
  { unfold enumerates. vm_compute. reflexivity. }
  assert (H' : single_lines (fun _ => "") [("LANG", false); ("PATH", true)]).
  { split; [reflexivity|]. constructor; [split; [reflexivity | intros _; reflexivity]|].
    constructor; [split; [reflexivity | intros _; reflexivity]|]. constructor. }
  exact (generateShell_shape "/goma" (fun _ => "") _ _ H H').
Defined.


(** ** Dollars in the chain text *)

Lemma dollars_paired_append (a b : string) :
  dollars_paired a = true -> dollars_paired (a +:+ b) = dollars_paired b.
Proof.
  unfold dollars_paired.
  assert (H : forall odd, dollars_paired_go odd a = true ->
                          dollars_paired_go odd (a +:+ b) = dollars_paired_go false b).
  { induction a as [|c a IH]; intros odd; simpl.
    - by destruct odd.
    - destruct (Ascii.eqb c "$"%char); [apply IH|]. destruct odd; [done | apply IH]. }
  apply H.
Qed.

Lemma dollars_paired_app (a b : string) :
  dollars_paired a = true -> dollars_paired b = true -> dollars_paired (a +:+ b) = true.
Proof. intros Ha Hb. by rewrite dollars_paired_append. Qed.

Lemma dollars_paired_none (s : string) :
  Str.mem "$"%char s = false -> dollars_paired s = true.
Proof.
  unfold dollars_paired. induction s as [|c s IH]; [done|].
  cbn [Str.mem dollars_paired_go]. rewrite (Ascii.eqb_sym "$"%char c).
  destruct (Ascii.eqb c "$"%char); [done | apply IH].
Qed.

Lemma dollars_paired_doubled (s : string) :
  dollars_paired (Str.Replace s "$" "$$") = true.
Proof.
  unfold Str.Replace. induction s as [|d s IH]; [done|].
  cbn [Str.replace_go]. change "$" with (Str.of_byte "$"%char) at 1. rewrite prefix_byte.
  destruct (ascii_dec "$"%char d) as [<-|Hne].
  - change (String.length "$" - 1)%nat with O. by apply dollars_paired_app.
  - unfold dollars_paired in *. cbn [dollars_paired_go].
    by rewrite (proj2 (Ascii.eqb_neq d "$"%char)) by congruence.
Qed.

Lemma dollars_paired_tab (s : string) :
  dollars_paired (Str.Replace s (Str.of_byte Str.TAB) " ") = dollars_paired s.
Proof.
  unfold Str.Replace, dollars_paired.
  assert (H : forall odd,
            dollars_paired_go odd (Str.replace_go (Str.of_byte Str.TAB) " " 0 s)
            = dollars_paired_go odd s); [|apply H].
  induction s as [|d s IH]; intros odd; [done|].
  cbn [Str.replace_go]. rewrite prefix_byte.
  destruct (ascii_dec Str.TAB d) as [<-|Hne].
  - change (String.length (Str.of_byte Str.TAB) - 1)%nat with O.
    cbn [String.append dollars_paired_go]. change (Ascii.eqb " " "$") with false.
    change (Ascii.eqb Str.TAB "$") with false. cbn match.
    destruct odd; [done | apply IH].
  - cbn [dollars_paired_go]. destruct (Ascii.eqb d "$"%char); [apply IH|].
    destruct odd; [done | apply IH].
Qed.

Lemma commandText_plain_dollars (r : runner) :
  dollars_paired (fst (commandText "" r)) = true.
Proof.
  unfold commandText. cbn [String.eqb negb andb fst].
  match goal with
  | |- context [String.eqb ?x ""] => destruct (String.eqb x "")
  end; [done|].
  rewrite dollars_paired_tab. apply dollars_paired_doubled.
Qed.

Lemma joined_after_dollars (text : runner -> string) (wrap : nat -> string -> bool)
    (total : nat) (rest : list runner) :
  (forall r, dollars_paired (text r) = true) ->
  forall prev i, dollars_paired (joined_after " ; " text wrap total prev i rest) = true.
Proof.
  intros Ht. induction rest as [|r rest IH]; intros prev i; cbn [joined_after]; [done|].
  apply dollars_paired_app; [by destruct (ignoreError prev)|].
  apply dollars_paired_app; [|apply IH].
  unfold unit_at. destruct (wrap i (text r)), (_ && ignoreError r);
    repeat (apply dollars_paired_app; try done).
Qed.

(** X16. When the accelerator directory holds no [$], every [$] of the
    chain text stands in a pair [$$]: no recipe dollar reaches ninja
    unescaped. *)
Theorem genShellScript_dollars (gomaDir : string) (runners : list runner) :
  Str.mem "$"%char gomaDir = false ->
  dollars_paired (fst (genShellScript gomaDir runners)) = true.
Proof.
  intros Hg.
  assert (Ht : forall r, dollars_paired (fst (commandText gomaDir r)) = true).
  { intros r. rewrite commandText_eq. cbn zeta.
    pose proof (commandText_plain_dollars r).
    destruct (_ && _); cbn [fst]; [|done].
    apply dollars_paired_app; [by apply dollars_paired_none|].
    by apply dollars_paired_app. }
  rewrite (genShellScript_joined gomaDir runners
             (fun i t => if begins_with_paren t then false
                         else (0 <? i)%nat || (1 <? length runners)%nat))
    by done.
  destruct runners as [|r rest]; [done|]. cbn [joined].
  apply dollars_paired_app; [|by apply joined_after_dollars].
  unfold unit_at. destruct (if begins_with_paren _ then _ else _), (_ && ignoreError r);
    repeat (apply dollars_paired_app; try done).
Qed.

Lemma genShellScript_dollars_witness :
  dollars_paired
    (fst (genShellScript "/g" [ {| cmd := "echo $(HOME) $$x"; ignoreError := true |};
                                {| cmd := "cp $< $@"; ignoreError := false |} ]))
  = true.
Proof. exact (genShellScript_dollars "/g" _ eq_refl). Defined.
